(** * Movies GraphRAG tutorial servers: a shallow embedding

    The repository holds five tutorial files under [solutions/], each a
    small FastMCP server:

    - [strawberry/main.py] and [3c-create-first-server/main.py]: the
      letter-counting tool (and, in 3c, a prompt and two resources);
    - [2c-add-neo4j-connection/main.py], [6c-build-database-tool/main.py]
      and [10c-paginated-tool/main.py]: servers backed by a Neo4j driver
      that is opened and closed by [app_lifespan].

    Python state is passed explicitly: a handler is a function from a
    [World] (what the request context, the client log and the database
    hold) to an outcome and a new [World]; an exception keeps the effects
    that happened before it was raised. *)

From stdpp Require Import base option list gmap strings pretty.
From Stdlib Require Import ZArith Ascii.

Set Warnings "-register-all".

Open Scope string_scope.
Open Scope list_scope.
Open Scope Z_scope.

(** ** Exceptions and outcomes *)

(** An exception object: its class name and what [str(e)] returns. How
    it was raised tells whether it is an instance of [Exception], which
    the handlers' [except Exception] clauses catch, or of
    [BaseException] only ([asyncio.CancelledError], [KeyboardInterrupt]),
    which they let through. *)
Record exc := Exc { exc_type : string; exc_str : string }.

Definition ZeroDivisionError : exc :=
  Exc "ZeroDivisionError" "integer division or modulo by zero".
Definition TypeError (msg : string) : exc := Exc "TypeError" msg.
(** [str(KeyError(k))] is [repr(k)]; the keys looked up by the handlers
    are plain identifiers, whose repr is the key in single quotes. *)
Definition KeyError (key : string) : exc := Exc "KeyError" ("'" +:+ key +:+ "'").

(** The result of a Python expression that may raise: a value, an
    instance of [Exception] ([Err]), or an exception outside [Exception]
    ([Interrupt]). *)
Inductive result (A : Type) : Type :=
| Ok (a : A)
| Err (e : exc)
| Interrupt (e : exc).
Arguments Ok {A} a.
Arguments Err {A} e.
Arguments Interrupt {A} e.

#[global] Instance result_ret : MRet result := @Ok.
#[global] Instance result_bind : MBind result := λ A B f r,
  match r with
  | Ok a => f a
  | Err e => Err e
  | Interrupt e => Interrupt e
  end.

(** ** Python values as seen by the handlers

    Rows come back from the driver as Python objects. The handlers only
    use the built-in protocol below; the objects themselves (and the
    primitives' implementation) belong to the interpreter and the
    driver. *)
Class PyValue (V : Type) := {
  (** [format(v, "")], what an f-string placeholder [{v}] renders *)
  py_format : V → string;
  (** truth value, as tested by [if v:] *)
  py_bool : V → bool;
  (** [v[key]] for a string key *)
  py_getitem : V → string → result V;
  (** the items produced by iterating [v]; [Err] when [v] is not iterable *)
  py_iter : V → result (list V);
  (** the text of [v] when [v] is a [str] *)
  py_as_str : V → option string;
  (** [type(v).__name__] *)
  py_type_name : V → string;
  (** the [int] object of a given value *)
  py_int : Z → V
}.

(** A query parameter handed to the driver as a keyword argument. *)
Inductive param :=
| PStr (s : string)
| PInt (z : Z).

(** ** The driver and the application context *)

(** [neo4j.AsyncDriver]: an object identity plus what it was built from. *)
Record AsyncDriver := {
  handle : nat;
  driver_uri : string;
  driver_auth : string * string
}.

(** The dataclass of every database-backed file (lines 17-21). *)
Record AppContext := {
  driver : AsyncDriver;
  database : string
}.

(** One call of [driver.execute_query]. *)
Record QueryCall := {
  q_driver : AsyncDriver;
  q_text : string;
  q_params : list (string * param);
  q_database : option string   (* the [database_] keyword, when given *)
}.

Inductive Level := Debug | Info | Warning | Error.

(** ** The handler monad *)

(** What a handler can observe and change: the lifespan context reached
    through [ctx.request_context], the messages sent to the client, the
    calls made on the driver, and the state [G] of the graph database. *)
Record World (G : Type) := {
  lifespan_context : AppContext;        (* ctx.request_context.lifespan_context *)
  messages : list (Level * string);     (* ctx.debug/info/warning/error, oldest first *)
  issued : list QueryCall;              (* execute_query calls, oldest first *)
  graph : G
}.
Arguments lifespan_context {G} w.
Arguments messages {G} w.
Arguments issued {G} w.
Arguments graph {G} w.

(** How a call ends: it returns, it raises an instance of [Exception]
    ([Raise]), or it raises an exception outside [Exception]
    ([RaiseBase]). *)
Inductive outcome (A : Type) : Type :=
| Return (a : A)
| Raise (e : exc)
| RaiseBase (e : exc).
Arguments Return {A} a.
Arguments Raise {A} e.
Arguments RaiseBase {A} e.

Definition M (G A : Type) : Type := World G → outcome A * World G.

Section Monad.
Context {G : Type}.

Definition ret {A} (a : A) : M G A := λ w, (Return a, w).
Definition raise {A} (e : exc) : M G A := λ w, (Raise e, w).
Definition bind {A B} (m : M G A) (f : A → M G B) : M G B := λ w,
  match m w with
  | (Return a, w') => f a w'
  | (Raise e, w') => (Raise e, w')
  | (RaiseBase e, w') => (RaiseBase e, w')
  end.
(** [try: body  except Exception as e: handler(e)]: the clause catches
    the instances of [Exception] and nothing else. *)
Definition try_except {A} (body : M G A) (handler : exc → M G A) : M G A := λ w,
  match body w with
  | (Return a, w') => (Return a, w')
  | (Raise e, w') => handler e w'
  | (RaiseBase e, w') => (RaiseBase e, w')
  end.
(** A pure expression evaluated inside a handler. *)
Definition lift {A} (r : result A) : M G A :=
  match r with
  | Ok a => ret a
  | Err e => raise e
  | Interrupt e => λ w, (RaiseBase e, w)
  end.

Definition send (l : Level) (msg : string) : M G unit := λ w,
  (Return (),
   {| lifespan_context := lifespan_context w;
      messages := messages w ++ [(l, msg)];
      issued := issued w;
      graph := graph w |}).
Definition ctx_debug := send Debug.
Definition ctx_info := send Info.
Definition ctx_warning := send Warning.
Definition ctx_error := send Error.

(** [ctx.request_context.lifespan_context] *)
Definition get_lifespan_context : M G AppContext := λ w,
  (Return (lifespan_context w), w).
End Monad.

#[global] Instance M_ret {G} : MRet (M G) := @ret G.
#[global] Instance M_bind {G} : MBind (M G) := λ A B f m, bind m f.

(** [a // b] on Python ints: the quotient rounded towards minus infinity. *)
Definition floordiv (a b : Z) : result Z :=
  if b =? 0 then Err ZeroDivisionError else Ok (a `div` b).

(** The one-character string written "\n" in Python. *)
Definition newline : string := "
".

(** ** Query texts *)

Definition graph_statistics_query : string :=
  "RETURN COUNT {()} AS nodes, COUNT {()-[]-()} AS relationships".

Definition get_movies_by_genre_query : string :=
"
            MATCH (m:Movie)-[:IN_GENRE]->(g:Genre {name: $genre})
            RETURN m.title AS title,
                   m.imdbRating AS imdbRating,
                   m.released AS released
            ORDER BY coalesce(m.imdbRating, 0) DESC
            LIMIT $limit
            ".

Definition get_movie_query : string :=
"
            MATCH (m:Movie {tmdbId: $tmdb_id})
            RETURN m.title AS title,
               m.released AS released,
               m.tagline AS tagline,
               m.runtime AS runtime,
               m.plot AS plot,
               [ (m)-[:IN_GENRE]->(g:Genre) | g.name ] AS genres,
               [ (p)-[r:ACTED_IN]->(m) | {name: p.name, role: r.role} ] AS actors,
               [ (d)-[:DIRECTED]->(m) | d.name ] AS directors
            ".

Definition list_movies_by_genre_query : string :=
"
            MATCH (m:Movie)-[:IN_GENRE]->(g:Genre {name: $genre})
            RETURN m.title AS title,
                   m.released AS released,
                   m.imdbRating AS rating
            ORDER BY m.title ASC
            SKIP $skip
            LIMIT $limit
            ".

(** ** Handlers of the database-backed files *)

(** The dict returned by [list_movies_by_genre] (lines 282-289 of
    [10c-paginated-tool/main.py]); [next_cursor] is [None] or an int. *)
Record Page (V : Type) := {
  page_genre : string;
  page_movies : list (gmap string V);
  next_cursor : option Z;
  page : Z;
  page_size_ : Z;
  has_more : bool
}.
Arguments page_genre {V} p.
Arguments page_movies {V} p.
Arguments next_cursor {V} p.
Arguments page {V} p.
Arguments page_size_ {V} p.
Arguments has_more {V} p.

(** The handlers run with the [Context] object the framework injects as
    [ctx]; their [str] and [int] arguments arrive validated against the
    annotations of the signature. *)
Section Handlers.
Context {V : Type} `{PyValue V}.
(** The state of the graph database and the engine behind the driver:
    a call is answered with rows or with an exception, and leaves the
    graph in some state. *)
Context {G : Type}.
Variable engine : QueryCall → G → result (list (list (string * V))) * G.

(** A row, [neo4j.Record]: keys with their values, in RETURN order. *)
Definition Row := list (string * V).

(** [record.data()] and [dict(record)]: the first occurrence of a key
    gives its value. *)
Definition data (r : Row) : gmap string V := list_to_map r.

(** [await driver.execute_query(text, **params, database_=db)], keeping
    the records of the eager result. *)
Definition execute_query (d : AsyncDriver) (text : string)
    (params : list (string * param)) (db : option string) : M G (list Row) := λ w,
  let call := {| q_driver := d; q_text := text; q_params := params; q_database := db |} in
  let '(r, g') := engine call (graph w) in
  let w' := {| lifespan_context := lifespan_context w;
               messages := messages w;
               issued := issued w ++ [call];
               graph := g' |} in
  match r with
  | Ok rows => (Return rows, w')
  | Err e => (Raise e, w')
  | Interrupt e => (RaiseBase e, w')
  end.

(** [d[key]] on a dict. *)
Definition dict_getitem (d : gmap string V) (key : string) : result V :=
  match d !! key with
  | Some v => Ok v
  | None => Err (KeyError key)
  end.

(** An element of a list that mixes strings built by the handler
    ([inl]) with values taken from a row ([inr]). *)
Definition item_text (x : string + V) : option string :=
  match x with
  | inl s => Some s
  | inr v => py_as_str v
  end.
Definition item_type (x : string + V) : string :=
  match x with
  | inl _ => "str"
  | inr v => py_type_name v
  end.

(** [sep.join(items)]: every item must be a [str]; the first one that
    is not raises [TypeError] naming its index and type. *)
Fixpoint join_items (i : nat) (items : list (string + V)) : result (list string) :=
  match items with
  | [] => Ok []
  | x :: rest =>
      match item_text x with
      | None =>
          Err (TypeError ("sequence item " +:+ pretty i +:+ ": expected str instance, "
                          +:+ item_type x +:+ " found"))
      | Some s => ss ← join_items (S i) rest; Ok (s :: ss)
      end
  end.
Definition str_join (sep : string) (items : list (string + V)) : result string :=
  ss ← join_items 0 items; Ok (String.concat sep ss).
(** [sep.join(v)] for a value [v] taken from a row. *)
Definition str_join_value (sep : string) (v : V) : result string :=
  match py_iter v with
  | Err _ => Err (TypeError "can only join an iterable")
  | Interrupt e => Interrupt e
  | Ok items => str_join sep (inr <$> items)
  end.

(** One line of the cast (lines 194-197 of 10c). *)
Definition cast_line (actor : V) : result string :=
  role ← py_getitem actor "role";
  if py_bool role then
    name ← py_getitem actor "name";
    role' ← py_getitem actor "role";
    Ok ("- " +:+ py_format name +:+ " as " +:+ py_format role')
  else
    name ← py_getitem actor "name";
    Ok ("- " +:+ py_format name).

Fixpoint cast_lines (actors : list V) : result (list (string + V)) :=
  match actors with
  | [] => Ok []
  | actor :: rest =>
      line ← cast_line actor;
      lines ← cast_lines rest;
      Ok (inl line :: lines)
  end.

(** The formatting of one movie (lines 171-199 of 10c): the lines of
    [output] in order, then joined by newlines. *)
Definition format_movie (movie : gmap string V) : result string :=
  title ← dict_getitem movie "title";
  released ← dict_getitem movie "released";
  let output : list (string + V) :=
    [inl ("# " +:+ py_format title +:+ " (" +:+ py_format released +:+ ")"); inl ""] in
  tagline ← dict_getitem movie "tagline";
  output ← (if py_bool tagline then
              tagline' ← dict_getitem movie "tagline";
              Ok (output ++ [inl ("_" +:+ py_format tagline' +:+ "_"); inl ""])
            else Ok output);
  runtime ← dict_getitem movie "runtime";
  let output := output ++ [inl ("**Runtime:** " +:+ py_format runtime +:+ " minutes")] in
  genres ← dict_getitem movie "genres";
  genres_text ← str_join_value ", " genres;
  let output := output ++ [inl ("**Genres:** " +:+ genres_text)] in
  directors ← dict_getitem movie "directors";
  output ← (if py_bool directors then
              directors' ← dict_getitem movie "directors";
              directors_text ← str_join_value ", " directors';
              Ok (output ++ [inl ("**Director(s):** " +:+ directors_text)])
            else Ok output);
  let output := output ++ [inl ""; inl "## Plot"] in
  plot ← dict_getitem movie "plot";
  let output := output ++ [inr plot] in
  actors ← dict_getitem movie "actors";
  output ← (if py_bool actors then
              let output := output ++ [inl ""; inl "## Cast"] in
              actors' ← dict_getitem movie "actors";
              items ← py_iter actors';
              lines ← cast_lines items;
              Ok (output ++ lines)
            else Ok output);
  str_join newline output.

(** [get_movie] (lines 133-207 of 10c). *)
Definition get_movie (tmdb_id : string) : M G string :=
  ctx_info ("Fetching movie details for TMDB ID: " +:+ tmdb_id);;
  context ← get_lifespan_context;
  try_except
    (records ← execute_query (driver context) get_movie_query
                 [("tmdb_id", PStr tmdb_id)] (Some (database context));
     match records with
     | [] =>
         ctx_warning ("Movie with TMDB ID " +:+ tmdb_id +:+ " not found");;
         mret ("Movie with TMDB ID " +:+ tmdb_id +:+ " not found in database")
     | r :: _ =>
         let movie := data r in
         result ← lift (format_movie movie);
         title ← lift (dict_getitem movie "title");
         ctx_info ("Successfully fetched details for '" +:+ py_format title +:+ "'");;
         mret result
     end)
    (λ e, ctx_error ("Failed to fetch movie: " +:+ exc_str e);; raise e).

(** [graph_statistics] (lines 56-73 of 2c, 6c and 10c, the same text). *)
Definition graph_statistics : M G (gmap string V) :=
  context ← get_lifespan_context;
  let driver := driver context in
  let database := database context in
  records ← execute_query driver graph_statistics_query [] (Some database);
  match records with
  | r :: _ => mret (data r)
  | [] => mret {[ "nodes" := py_int 0; "relationships" := py_int 0 ]}
  end.

(** [get_movies_by_genre] (lines 77-129 of 6c and 10c, the same text). *)
Definition get_movies_by_genre (genre : string) (limit : Z) : M G (list (gmap string V)) :=
  ctx_info ("Searching for " +:+ genre +:+ " movies (limit: " +:+ pretty limit +:+ ")...");;
  context ← get_lifespan_context;
  let driver := driver context in
  ctx_debug ("Executing Cypher query for genre: " +:+ genre);;
  try_except
    (records ← execute_query driver get_movies_by_genre_query
                 [("genre", PStr genre); ("limit", PInt limit)] None;
     let movies := data <$> records in
     ctx_info ("Found " +:+ pretty (length movies) +:+ " " +:+ genre +:+ " movies");;
     (if bool_decide (length movies = 0%nat)
      then ctx_warning ("No movies found for genre: " +:+ genre)
      else mret ());;
     mret movies)
    (λ e, ctx_error ("Query failed: " +:+ exc_str e);; raise e).

(** [list_movies_by_genre] (lines 213-293 of 10c). *)
Definition list_movies_by_genre (genre : string) (page_size cursor : Z) : M G (Page V) :=
  let skip := cursor * page_size in
  q ← lift (floordiv skip page_size);
  let page_num := q + 1 in
  ctx_info ("Fetching " +:+ genre +:+ " movies, page " +:+ pretty page_num
            +:+ " (showing " +:+ pretty page_size +:+ " per page)...");;
  try_except
    (context ← get_lifespan_context;
     let driver := driver context in
     records ← execute_query driver list_movies_by_genre_query
                 [("genre", PStr genre); ("skip", PInt skip); ("limit", PInt page_size)] None;
     let movies := data <$> records in
     let next_cursor :=
       if bool_decide (Z.of_nat (length movies) = page_size)
       then Some (skip + page_size) else None in
     ctx_info ("Returned " +:+ pretty (length movies) +:+ " movies from page "
               +:+ pretty page_num);;
     (if next_cursor is None then ctx_info "This is the last page" else mret ());;
     mret {| page_genre := genre;
             page_movies := movies;
             next_cursor := next_cursor;
             page := page_num;
             page_size_ := page_size;
             has_more := bool_decide (next_cursor ≠ None) |})
    (λ e, ctx_error ("Query failed: " +:+ exc_str e);; raise e).

End Handlers.

(** ** Requests served by the database-backed files

    The framework routes a tool call or a resource read to the handler
    registered under that name. *)
Inductive Request :=
| GraphStatistics
| GetMoviesByGenre (genre : string) (limit : Z)
| GetMovie (tmdb_id : string)
| ListMoviesByGenre (genre : string) (page_size cursor : Z).

Inductive Response (V : Type) :=
| Statistics (d : gmap string V)
| Movies (l : list (gmap string V))
| MovieText (s : string)
| MoviePage (p : Page V).
Arguments Statistics {V} d.
Arguments Movies {V} l.
Arguments MovieText {V} s.
Arguments MoviePage {V} p.

Definition handle_request {V} `{PyValue V} {G}
    (engine : QueryCall → G → result (list (list (string * V))) * G)
    (req : Request) : M G (Response V) :=
  match req with
  | GraphStatistics => d ← graph_statistics engine; mret (Statistics d)
  | GetMoviesByGenre genre limit => l ← get_movies_by_genre engine genre limit; mret (Movies l)
  | GetMovie tmdb_id => s ← get_movie engine tmdb_id; mret (MovieText s)
  | ListMoviesByGenre genre page_size cursor =>
      p ← list_movies_by_genre engine genre page_size cursor; mret (MoviePage p)
  end.

(** The world after a sequence of requests, each served in the world
    the one before left, whether it returned or raised. *)
Definition after_requests {V} `{PyValue V} {G}
    (engine : QueryCall → G → result (list (list (string * V))) * G)
    (reqs : list Request) (w : World G) : World G :=
  foldl (λ world req, (handle_request engine req world).2) w reqs.

(** The text each handler hands to the driver. *)
Definition query_text_of (req : Request) : string :=
  match req with
  | GraphStatistics => graph_statistics_query
  | GetMoviesByGenre _ _ => get_movies_by_genre_query
  | GetMovie _ => get_movie_query
  | ListMoviesByGenre _ _ _ => list_movies_by_genre_query
  end.

(** The texts handed to the driver. *)
Definition query_texts : list string :=
  [graph_statistics_query; get_movies_by_genre_query; get_movie_query;
   list_movies_by_genre_query].

(** The keyword arguments each handler hands to the driver. *)
Definition query_params_of (req : Request) : list (string * param) :=
  match req with
  | GraphStatistics => []
  | GetMoviesByGenre genre limit => [("genre", PStr genre); ("limit", PInt limit)]
  | GetMovie tmdb_id => [("tmdb_id", PStr tmdb_id)]
  | ListMoviesByGenre genre page_size cursor =>
      [("genre", PStr genre); ("skip", PInt (cursor * page_size)); ("limit", PInt page_size)]
  end.

(** Whether the handler names the database ([database_=...]). *)
Definition names_database (req : Request) : bool :=
  match req with
  | GraphStatistics | GetMovie _ => true
  | GetMoviesByGenre _ _ | ListMoviesByGenre _ _ _ => false
  end.

Definition query_call_of (ctx : AppContext) (req : Request) : QueryCall :=
  {| q_driver := driver ctx;
     q_text := query_text_of req;
     q_params := query_params_of req;
     q_database := if names_database req then Some (database ctx) else None |}.

(** Whether the handler gets as far as its query: each one does, except
    [list_movies_by_genre] with a page size of zero, where the division
    before the query raises. *)
Definition reaches_driver (req : Request) : bool :=
  match req with
  | ListMoviesByGenre _ page_size _ => negb (page_size =? 0)
  | _ => true
  end.

(** The handlers that wrap their query in [try ... except Exception], and
    the text they put before [str(e)] in the error message. *)
Definition failure_prefix (req : Request) : option string :=
  match req with
  | GraphStatistics => None
  | GetMoviesByGenre _ _ | ListMoviesByGenre _ _ _ => Some "Query failed: "
  | GetMovie _ => Some "Failed to fetch movie: "
  end.

(** ** Parameter references in a query text *)




(** ** The connection lifecycle

    [app_lifespan] (lines 26-45 of 2c, 6c and 10c, the same text) is an
    async context manager: the framework enters it, runs the server with
    the yielded context, and leaves it when the server stops or fails. *)

Inductive DriverEvent :=
| Created (d : AsyncDriver)
| Closed (d : AsyncDriver).

(** The process around the server: [os.environ], the driver objects
    created and closed so far (oldest first), and the state [S] of the
    running server. *)
Record Process (S : Type) := {
  environ : gmap string string;
  driver_events : list DriverEvent;
  server : S
}.
Arguments environ {S} p.
Arguments driver_events {S} p.
Arguments server {S} p.

(** [os.getenv(name, fallback)] *)
Definition getenv (env : gmap string string) (name fallback : string) : string :=
  match env !! name with
  | Some value => value
  | None => fallback
  end.

(** [load_dotenv()], run when the module is imported (line 12): the
    entries of the [.env] file are added to the environment, a variable
    that is already set keeps its value. *)
Definition load_dotenv (dotenv env : gmap string string) : gmap string string :=
  env ∪ dotenv.

Section Lifespan.
Context {S A : Type}.
(** What the driver library may answer: the constructor raises for a
    URI or credentials it rejects, and [close] may raise. *)
Variable rejects : string → string * string → option exc.
Variable close_raises : AsyncDriver → option exc.

(** [AsyncGraphDatabase.driver(uri, auth=auth)]: a new driver object. *)
Definition new_driver (uri : string) (auth : string * string)
    (p : Process S) : outcome AsyncDriver * Process S :=
  match rejects uri auth with
  | Some e => (Raise e, p)
  | None =>
      let d := {| handle := length (driver_events p);
                  driver_uri := uri;
                  driver_auth := auth |} in
      (Return d, {| environ := environ p;
                    driver_events := driver_events p ++ [Created d];
                    server := server p |})
  end.

(** [await driver.close()] *)
Definition driver_close (d : AsyncDriver) (p : Process S) : outcome unit * Process S :=
  let p' := {| environ := environ p;
               driver_events := driver_events p ++ [Closed d];
               server := server p |} in
  match close_raises d with
  | Some e => (Raise e, p')
  | None => (Return (), p')
  end.

(** [async with app_lifespan(server) as context: body(context)]. The
    [finally] clause runs whether [body] returns or raises; an
    exception raised by [close] replaces the outcome of the body. *)
Definition app_lifespan (body : AppContext → S → outcome A * S)
    (p : Process S) : outcome A * Process S :=
  let uri := getenv (environ p) "NEO4J_URI" "bolt://localhost:7687" in
  let username := getenv (environ p) "NEO4J_USERNAME" "neo4j" in
  let password := getenv (environ p) "NEO4J_PASSWORD" "password" in
  let database := getenv (environ p) "NEO4J_DATABASE" "neo4j" in
  match new_driver uri (username, password) p with
  | (Raise e, p1) => (Raise e, p1)
  | (RaiseBase e, p1) => (RaiseBase e, p1)
  | (Return driver, p1) =>
      let '(r, s') := body {| driver := driver; database := database |} (server p1) in
      let p2 := {| environ := environ p1;
                   driver_events := driver_events p1;
                   server := s' |} in
      match driver_close driver p2 with
      | (Raise e, p3) => (Raise e, p3)
      | (RaiseBase e, p3) => (RaiseBase e, p3)
      | (Return _, p3) => (r, p3)
      end
  end.
End Lifespan.

(** The four names [app_lifespan] looks up. *)
Definition connection_variables : list string :=
  ["NEO4J_URI"; "NEO4J_USERNAME"; "NEO4J_PASSWORD"; "NEO4J_DATABASE"].

(** ** What each file registers on its server *)

(** A lifespan, as passed to [FastMCP(name, lifespan=...)]. *)
Definition Lifespan : Type :=
  ∀ S A : Type,
    (string → string * string → option exc) → (AsyncDriver → option exc) →
    (AppContext → S → outcome A * S) → Process S → outcome A * Process S.

(** A tool as the server lists it: its name and the arguments a client
    passes (the injected [ctx] is not one of them). *)
Record Tool := {
  tool_name : string;
  tool_arguments : list string
}.

Record FastMCP := {
  server_name : string;
  lifespan : option Lifespan;
  tools : list Tool;
  resources : list string;     (* URI templates *)
  prompts : list string
}.

Definition new_server (name : string) (l : option Lifespan) : FastMCP :=
  {| server_name := name; lifespan := l; tools := []; resources := []; prompts := [] |}.

(** [@mcp.tool()], [@mcp.resource(uri)] and [@mcp.prompt()] *)
Definition mcp_tool (name : string) (arguments : list string) (mcp : FastMCP) : FastMCP :=
  {| server_name := server_name mcp; lifespan := lifespan mcp;
     tools := tools mcp ++ [{| tool_name := name; tool_arguments := arguments |}];
     resources := resources mcp; prompts := prompts mcp |}.
Definition mcp_resource (uri : string) (mcp : FastMCP) : FastMCP :=
  {| server_name := server_name mcp; lifespan := lifespan mcp;
     tools := tools mcp;
     resources := resources mcp ++ [uri]; prompts := prompts mcp |}.
Definition mcp_prompt (name : string) (mcp : FastMCP) : FastMCP :=
  {| server_name := server_name mcp; lifespan := lifespan mcp;
     tools := tools mcp;
     resources := resources mcp; prompts := prompts mcp ++ [name] |}.

(** A module body: the decorators applied in order to the new server. *)
Definition register (mcp : FastMCP) (steps : list (FastMCP → FastMCP)) : FastMCP :=
  foldl (λ server step, step server) mcp steps.

Module Strawberry.
(** [solutions/strawberry/main.py] *)
Definition mcp : FastMCP :=
  register (new_server "Strawbrerry" None)
    [mcp_tool "count_letters" ["text"; "search"]].
End Strawberry.

Module CreateFirstServer.
(** [solutions/3c-create-first-server/main.py] *)
Definition mcp : FastMCP :=
  register (new_server "Strawbrerry" None)
    [mcp_tool "count_letters" ["text"; "search"];
     mcp_prompt "list_fruits_prompt";
     mcp_resource "cupboard://fruits";
     mcp_resource "cupboard://fruits/{name}"].

Definition list_fruits_prompt : string := "Use the fruits resource to get all fruits".
Definition fruits : list string := ["apple"; "strawberry"; "banana"].
(** [fruit(name)]; the two draws [random() < 0.5] are arguments here. *)
Definition fruit (name : string) (first_draw second_draw : bool) : gmap string string :=
  {[ "name" := name;
     "color" := if first_draw then "yellow" else "red";
     "taste" := if second_draw then "sour" else "sweet" ]}.
End CreateFirstServer.

Module AddNeo4jConnection.
(** [solutions/2c-add-neo4j-connection/main.py] *)
Definition mcp : FastMCP :=
  register (new_server "Movies GraphRAG Server" (Some (@app_lifespan)))
    [mcp_tool "graph_statistics" []].
End AddNeo4jConnection.

Module BuildDatabaseTool.
(** [solutions/6c-build-database-tool/main.py] *)
Definition mcp : FastMCP :=
  register (new_server "Movies GraphRAG Server" (Some (@app_lifespan)))
    [mcp_tool "graph_statistics" [];
     mcp_tool "get_movies_by_genre" ["genre"; "limit"]].
End BuildDatabaseTool.

Module PaginatedTool.
(** [solutions/10c-paginated-tool/main.py] *)
Definition mcp : FastMCP :=
  register (new_server "Movies GraphRAG Server" (Some (@app_lifespan)))
    [mcp_tool "graph_statistics" [];
     mcp_tool "get_movies_by_genre" ["genre"; "limit"];
     mcp_resource "movie://{tmdb_id}";
     mcp_tool "list_movies_by_genre" ["genre"; "page_size"; "cursor"]].
End PaginatedTool.

Definition solutions : list FastMCP :=
  [Strawberry.mcp; CreateFirstServer.mcp; AddNeo4jConnection.mcp;
   BuildDatabaseTool.mcp; PaginatedTool.mcp].

(** A tool paginates by offset when the client passes it a cursor and a
    page size. *)
Definition paginates (t : Tool) : bool :=
  bool_decide ("cursor" ∈ tool_arguments t) && bool_decide ("page_size" ∈ tool_arguments t).

(** What each file registers: the numbers of tools, resources and
    prompts, and whether one of its tools paginates. *)
Definition registrations (mcp : FastMCP) : nat * nat * nat * bool :=
  (length (tools mcp), length (resources mcp), length (prompts mcp),
   existsb paginates (tools mcp)).

Definition database_backed (mcp : FastMCP) : bool :=
  match lifespan mcp with
  | Some _ => true
  | None => false
  end.

(** ** The letter-counting tool

    [count_letters] (lines 6-9 of [strawberry/main.py] and of
    [3c-create-first-server/main.py], the same text). A Python [str] is
    a sequence of Unicode code points. *)

Definition pystr : Type := list N.

Section StrCount.
Local Open Scope nat_scope.

(** Whether [text] begins with [sub]. *)
Fixpoint starts_with (sub text : pystr) : bool :=
  match sub, text with
  | [], _ => true
  | a :: sub', b :: text' => bool_decide (a = b) && starts_with sub' text'
  | _ :: _, [] => false
  end.

(** The scan of [str.count] for a non-empty [sub]: left to right, and
    after a match the search resumes behind it ([skip] counts the
    characters of the last match still to pass). *)
Fixpoint count_from (sub : pystr) (skip : nat) (text : pystr) : nat :=
  match text with
  | [] => 0
  | _ :: rest =>
      match skip with
      | S k => count_from sub k rest
      | O =>
          if starts_with sub text
          then S (count_from sub (length sub - 1) rest)
          else count_from sub 0 rest
      end
  end.

(** [text.count(sub)]; for the empty [sub] it is [len(text) + 1]. *)
Definition str_count (text sub : pystr) : nat :=
  match sub with
  | [] => S (length text)
  | _ :: _ => count_from sub 0 text
  end.

(** [sub] occurs in [text] at position [p]. *)
Definition occurs_at (sub text : pystr) (p : nat) : Prop :=
  p + length sub ≤ length text ∧ take (length sub) (drop p text) = sub.

(** Positions in increasing order, each at or behind the end of the
    occurrence before it. *)
Fixpoint apart (width : nat) (ps : list nat) : Prop :=
  match ps with
  | p :: rest =>
      match rest with
      | q :: _ => p < q ∧ p + width ≤ q
      | [] => True
      end ∧ apart width rest
  | [] => True
  end.

(** [ps] lists occurrences of [sub] in [text] that do not overlap. *)
Definition non_overlapping (sub text : pystr) (ps : list nat) : Prop :=
  Forall (occurs_at sub text) ps ∧ apart (length sub) ps.

(** [n] is the number of non-overlapping occurrences of [sub] in
    [text]: some [n] occurrences do not overlap, and no more do. *)
Definition occurrences (sub text : pystr) (n : nat) : Prop :=
  (∃ ps, non_overlapping sub text ps ∧ length ps = n) ∧
  (∀ ps, non_overlapping sub text ps → length ps ≤ n).
End StrCount.

Section CountLetters.
(** [str.lower], which follows the interpreter's Unicode tables. *)
Variable lower : pystr → pystr.

Definition count_letters (text search : pystr) : nat :=
  str_count (lower text) (lower search).
End CountLetters.

(** [str.lower] and [str.upper] on the code points below U+0080 and on
    U+0131, LATIN SMALL LETTER DOTLESS I: it is its own lowercase and its
    uppercase is U+0049, the letter I. Other code points are left as
    they are, which is what the interpreter does to an uncased one; the
    cased code points outside this range are not in the tables. *)
Definition lower_point (c : N) : N :=
  if ((65 <=? c) && (c <=? 90))%N then (c + 32)%N else c.
Definition upper_point (c : N) : N :=
  if ((97 <=? c) && (c <=? 122))%N then (c - 32)%N
  else if (c =? 305)%N then 73%N else c.
Definition basic_lower (s : pystr) : pystr := lower_point <$> s.
Definition basic_upper (s : pystr) : pystr := upper_point <$> s.

(** The code points of an ASCII literal. *)
Fixpoint points (s : string) : pystr :=
  match s with
  | EmptyString => []
  | String a s' => N_of_ascii a :: points s'
  end.

(** Strings that differ only in the case of ASCII letters. *)
Definition same_letters (a b : pystr) : Prop :=
  Forall2 (λ x y, x = y ∨ ((x < 128)%N ∧ (y < 128)%N ∧ lower_point x = lower_point y)) a b.

(** ** Sample values, driver and database

    A small universe of Python values with the built-in protocol, and an
    engine over a three-movie graph, on which the handlers can be run. *)

Inductive value :=
| VNone
| VInt (z : Z)
| VStr (s : string)
| VList (l : list value)
| VMap (m : list (string * value)).

(** [repr] of a [str] made of printable ASCII characters other than the
    quote and the backslash. *)
Definition repr_str (s : string) : string := "'" +:+ s +:+ "'".

Definition comma_separated (items : list string) : string := String.concat ", " items.

Fixpoint repr (v : value) : string :=
  match v with
  | VNone => "None"
  | VInt z => pretty z
  | VStr s => repr_str s
  | VList l => "[" +:+ comma_separated (map repr l) +:+ "]"
  | VMap m =>
      "{" +:+ comma_separated (map (λ kv, repr_str kv.1 +:+ ": " +:+ repr kv.2) m) +:+ "}"
  end.

Definition value_format (v : value) : string :=
  match v with
  | VStr s => s
  | _ => repr v
  end.

Definition value_bool (v : value) : bool :=
  match v with
  | VNone => false
  | VInt z => negb (z =? 0)
  | VStr s => negb (bool_decide (s = ""))
  | VList l => negb (bool_decide (length l = 0%nat))
  | VMap m => negb (bool_decide (length m = 0%nat))
  end.

Definition value_type_name (v : value) : string :=
  match v with
  | VNone => "NoneType"
  | VInt _ => "int"
  | VStr _ => "str"
  | VList _ => "list"
  | VMap _ => "dict"
  end.

Fixpoint assoc (key : string) (m : list (string * value)) : option value :=
  match m with
  | [] => None
  | (k, v) :: rest => if bool_decide (k = key) then Some v else assoc key rest
  end.

Definition value_getitem (v : value) (key : string) : result value :=
  match v with
  | VMap m =>
      match assoc key m with
      | Some x => Ok x
      | None => Err (KeyError key)
      end
  | VList _ => Err (TypeError "list indices must be integers or slices, not str")
  | VStr _ => Err (TypeError "string indices must be integers, not 'str'")
  | _ => Err (TypeError ("'" +:+ value_type_name v +:+ "' object is not subscriptable"))
  end.

(** The characters of an ASCII text, one string each. *)
Fixpoint characters (s : string) : list value :=
  match s with
  | EmptyString => []
  | String a s' => VStr (String a EmptyString) :: characters s'
  end.

Definition value_iter (v : value) : result (list value) :=
  match v with
  | VList l => Ok l
  | VMap m => Ok (map (λ kv, VStr kv.1) m)
  | VStr s => Ok (characters s)
  | _ => Err (TypeError ("'" +:+ value_type_name v +:+ "' object is not iterable"))
  end.

#[global] Instance value_PyValue : PyValue value := {|
  py_format := value_format;
  py_bool := value_bool;
  py_getitem := value_getitem;
  py_iter := value_iter;
  py_as_str := λ v, match v with VStr s => Some s | _ => None end;
  py_type_name := value_type_name;
  py_int := VInt
|}.

Module Sample.
Definition matrix : list (string * value) :=
  [("title", VStr "The Matrix");
   ("released", VStr "1999-03-31");
   ("tagline", VStr "Welcome to the Real World");
   ("runtime", VInt 136);
   ("plot", VStr "A hacker learns the truth.");
   ("genres", VList [VStr "Action"; VStr "Sci-Fi"]);
   ("actors", VList [VMap [("name", VStr "Keanu Reeves"); ("role", VStr "Neo")];
                     VMap [("name", VStr "Carrie-Anne Moss"); ("role", VNone)]]);
   ("directors", VList [VStr "Lana Wachowski"; VStr "Lilly Wachowski"])].

Definition action_titles : list string := ["Aliens"; "Heat"; "Speed"].

Definition title_row (rating_key title : string) : list (string * value) :=
  [("title", VStr title); ("released", VNone); (rating_key, VNone)].

Definition int_param (name : string) (params : list (string * param)) : option Z :=
  match list_find (λ kv, kv.1 = name) params with
  | Some (_, (_, PInt z)) => Some z
  | _ => None
  end.
Definition str_param (name : string) (params : list (string * param)) : option string :=
  match list_find (λ kv, kv.1 = name) params with
  | Some (_, (_, PStr s)) => Some s
  | _ => None
  end.

Definition negative : exc :=
  Exc "CypherSyntaxError" "Invalid input. Must be a non-negative integer.".

(** The graph is a counter of the updates applied to it: the four
    texts of the handlers are answered from the sample data and leave
    it alone, any other text bumps it. *)
Definition rows_for (call : QueryCall) : result (list (list (string * value))) :=
  let params := q_params call in
  let titles :=
    if bool_decide (str_param "genre" params = Some "Action") then action_titles else [] in
  if bool_decide (q_text call = graph_statistics_query) then
    Ok [[("nodes", VInt 5); ("relationships", VInt 4)]]
  else if bool_decide (q_text call = get_movie_query) then
    Ok (if bool_decide (str_param "tmdb_id" params = Some "603") then [matrix] else [])
  else if bool_decide (q_text call = get_movies_by_genre_query) then
    match int_param "limit" params with
    | Some limit =>
        if limit <? 0 then Err negative
        else Ok (title_row "imdbRating" <$> take (Z.to_nat limit) titles)
    | None => Err (Exc "ClientError" "Expected parameter(s): limit")
    end
  else if bool_decide (q_text call = list_movies_by_genre_query) then
    match int_param "skip" params, int_param "limit" params with
    | Some skip, Some limit =>
        if (skip <? 0) || (limit <? 0) then Err negative
        else Ok (title_row "rating" <$> take (Z.to_nat limit) (drop (Z.to_nat skip) titles))
    | _, _ => Err (Exc "ClientError" "Expected parameter(s): skip, limit")
    end
  else Ok [].

Definition engine (call : QueryCall) (g : nat) : result (list (list (string * value))) * nat :=
  (rows_for call, if bool_decide (q_text call ∈ query_texts) then g else S g).


Definition context : AppContext :=
  {| driver := {| handle := 0; driver_uri := "bolt://localhost:7687";
                  driver_auth := ("neo4j", "password") |};
     database := "neo4j" |}.

Definition world : World nat :=
  {| lifespan_context := context; messages := []; issued := []; graph := 0%nat |}.

Definition unavailable : exc :=
  Exc "ServiceUnavailable" "Unable to retrieve routing information".

(** A process whose environment sets the URI only, and a server that
    counts its requests before it fails. *)
Definition process : Process nat :=
  {| environ := {[ "NEO4J_URI" := "neo4j://graph.example:7687" ]};
     driver_events := [];
     server := 0%nat |}.
Definition accepts (uri : string) (auth : string * string) : option exc := None.
Definition closes (d : AsyncDriver) : option exc := None.
Definition failing_server (ctx : AppContext) (served : nat) : outcome unit * nat :=
  (Raise unavailable, Datatypes.S served).
End Sample.

(** The keys [get_movie] reads from a row (lines 173-193 of 10c). *)
Definition movie_keys : list string :=
  ["title"; "released"; "tagline"; "runtime"; "plot"; "genres"; "actors"; "directors"].

Module MoreSamples.
(** A movie stored without a plot. *)
Definition no_plot : list (string * value) :=
  [("title", VStr "Heat"); ("released", VStr "1995-12-15"); ("tagline", VNone);
   ("runtime", VInt 170); ("plot", VNone); ("genres", VList [VStr "Crime"]);
   ("actors", VList []); ("directors", VList [])].

(** An engine that answers every call with the same rows. *)
Definition answering (rows : list (list (string * value))) (call : QueryCall) (g : nat)
    : result (list (list (string * value))) * nat :=
  (Ok rows, g).

Definition bad_uri : exc := Exc "ConfigurationError" "URI scheme 'http' is not supported".
Definition rejecting (uri : string) (auth : string * string) : option exc := Some bad_uri.
Definition broken_pipe : exc := Exc "OSError" "Broken pipe".
Definition close_fails (d : AsyncDriver) : option exc := Some broken_pipe.
Definition quiet_server (ctx : AppContext) (served : nat) : outcome unit * nat :=
  (Return (), Datatypes.S served).

End MoreSamples.

(** * Properties of the handlers *)

Ltac unfold_monad :=
  unfold mbind, M_bind, mret, M_ret, bind, ret, raise, try_except, lift,
    ctx_debug, ctx_info, ctx_warning, ctx_error, send,
    get_lifespan_context, execute_query in *.

Section HandlerProperties.
Context {V : Type} `{PyValue V} {G : Type}.
Variable engine : QueryCall → G → result (list (list (string * V))) * G.

Lemma floordiv_zero a : floordiv a 0 = Err ZeroDivisionError.
Proof. reflexivity. Qed.

Lemma floordiv_nonzero a b : b ≠ 0 → floordiv a b = Ok (a `div` b).
Proof.
  intros Hb. unfold floordiv.
  destruct (Z.eqb_spec b 0) as [->|_]; [contradiction | reflexivity].
Qed.

(** The page number logged and returned is [cursor + 1]. *)
Lemma page_number c s : s ≠ 0 → (c * s) `div` s + 1 = c + 1.
Proof. intros Hs. by rewrite Z.div_mul. Qed.

(** What any request does to the world: the lifespan context is left
    as it was, messages are only added, and either the request stops
    before it reaches the driver (a zero page size) or exactly one
    call goes out, the one of [query_call_of]. When that call raises an
    instance of [Exception], it comes back as the outcome, after an
    error message if the handler has an [except] clause; when it raises
    anything else, that comes back as the outcome and no error message
    is sent. *)
Lemma handle_request_run req (w : World G) :
  let call := query_call_of (lifespan_context w) req in
  let '(r, w') := handle_request engine req w in
  lifespan_context w' = lifespan_context w ∧
  (∃ more, messages w' = messages w ++ more) ∧
  ((∃ genre c, req = ListMoviesByGenre genre 0 c ∧ r = Raise ZeroDivisionError ∧ w' = w) ∨
   (issued w' = issued w ++ [call] ∧
    graph w' = (engine call (graph w)).2 ∧
    (∀ e, (engine call (graph w)).1 = Err e →
      r = Raise e ∧
      match failure_prefix req with
      | Some prefix => last (messages w') = Some (Error, prefix +:+ exc_str e)
      | None => messages w' = messages w
      end) ∧
    (∀ e, (engine call (graph w)).1 = Interrupt e →
      r = RaiseBase e ∧
      ∃ more, messages w' = messages w ++ more ∧
              Forall (λ message, message.1 ≠ Error) more))).
Proof.
  intros call. subst call. unfold query_call_of.
  destruct req as [|genre limit|tmdb_id|genre s c]; simpl.
  - unfold graph_statistics. unfold_monad. simpl.
    destruct (engine _ (graph w)) as [[rows|e|e] g'] eqn:He; simpl.
    + destruct rows; simpl; (split; [done|]); (split; [by exists []; rewrite app_nil_r|]);
        right; (split; [done|]); (split; [done|]); split; intros e [=].
    + split; [done|]. split; [by exists []; rewrite app_nil_r|].
      right. split; [done|]. split; [done|]. split; [by intros e' [= ->] | intros e' [=]].
    + split; [done|]. split; [by exists []; rewrite app_nil_r|].
      right. split; [done|]. split; [done|]. split; [intros e' [=]|].
      intros e' [= ->]. split; [done|]. exists []. by rewrite app_nil_r.
  - unfold get_movies_by_genre. unfold_monad. simpl.
    destruct (engine _ (graph w)) as [[rows|e|e] g'] eqn:He; simpl.
    + case_bool_decide; simpl; (split; [done|]);
        (split; [rewrite <- !app_assoc; eauto|]);
        right; (split; [done|]); (split; [done|]); split; intros e [=].
    + split; [done|]. split; [rewrite <- !app_assoc; eauto|].
      right. split; [done|]. split; [done|]. split; [|intros e' [=]].
      intros e' [= ->]. split; [done|]. by rewrite last_snoc.
    + split; [done|]. split; [rewrite <- !app_assoc; eauto|].
      right. split; [done|]. split; [done|]. split; [intros e' [=]|].
      intros e' [= ->]. split; [done|]. rewrite <- !app_assoc.
      eexists. split; [reflexivity|]. by repeat constructor.
  - unfold get_movie. unfold_monad. simpl.
    destruct (engine _ (graph w)) as [[rows|e|e] g'] eqn:He; simpl.
    + destruct rows as [|r rows]; simpl.
      * split; [done|]. split; [rewrite <- !app_assoc; eauto|].
        right. split; [done|]. split; [done|]. split; intros e [=].
      * destruct (format_movie (data r)) as [text|e|e]; simpl;
          [destruct (dict_getitem (data r) "title") as [title|e|e]; simpl| |];
          (split; [done|]); (split; [rewrite <- ?app_assoc; eauto|]);
          right; (split; [done|]); (split; [done|]); split; intros e' [=].
    + split; [done|]. split; [rewrite <- !app_assoc; eauto|].
      right. split; [done|]. split; [done|]. split; [|intros e' [=]].
      intros e' [= ->]. split; [done|]. by rewrite last_snoc.
    + split; [done|]. split; [eauto|].
      right. split; [done|]. split; [done|]. split; [intros e' [=]|].
      intros e' [= ->]. split; [done|].
      eexists. split; [reflexivity|]. by repeat constructor.
  - unfold list_movies_by_genre.
    destruct (Z.eq_dec s 0) as [->|Hs].
    + unfold_monad. simpl. split; [done|]. split; [by exists []; rewrite app_nil_r|].
      left. by exists genre, c.
    + rewrite (floordiv_nonzero _ _ Hs). unfold_monad. simpl.
      destruct (engine _ (graph w)) as [[rows|e|e] g'] eqn:He; simpl.
      * case_bool_decide; simpl; (split; [done|]);
          (split; [rewrite <- !app_assoc; eauto|]);
          right; (split; [done|]); (split; [done|]); split; intros e [=].
      * split; [done|]. split; [rewrite <- !app_assoc; eauto|].
        right. split; [done|]. split; [done|]. split; [|intros e' [=]].
        intros e' [= ->]. split; [done|]. by rewrite last_snoc.
      * split; [done|]. split; [eauto|].
        right. split; [done|]. split; [done|]. split; [intros e' [=]|].
        intros e' [= ->]. split; [done|].
        eexists. split; [reflexivity|]. by repeat constructor.
Qed.

(** The run of [list_movies_by_genre] for a page size other than
    zero: one call goes out, and the outcome is the page built from
    its rows, or its failure. *)
Lemma list_movies_by_genre_run genre s c (w : World G) :
  s ≠ 0 →
  let skip := c * s in
  let call := {| q_driver := driver (lifespan_context w);
                 q_text := list_movies_by_genre_query;
                 q_params := [("genre", PStr genre); ("skip", PInt skip); ("limit", PInt s)];
                 q_database := None |} in
  issued (list_movies_by_genre engine genre s c w).2 = issued w ++ [call] ∧
  (list_movies_by_genre engine genre s c w).1 =
    match (engine call (graph w)).1 with
    | Ok rows =>
        let full := bool_decide (Z.of_nat (length (data <$> rows)) = s) in
        Return {| page_genre := genre;
                  page_movies := data <$> rows;
                  next_cursor := if full then Some (skip + s) else None;
                  page := skip `div` s + 1;
                  page_size_ := s;
                  has_more := full |}
    | Err e => Raise e
    | Interrupt e => RaiseBase e
    end.
Proof.
  intros Hs skip call. unfold list_movies_by_genre.
  rewrite (floordiv_nonzero _ _ Hs). unfold_monad. simpl. fold skip. fold call.
  destruct (engine call (graph w)) as [[rows|e|e] g']; simpl; [|done..].
  by case_bool_decide.
Qed.

Lemma list_movies_by_genre_zero genre c (w : World G) :
  list_movies_by_genre engine genre 0 c w = (Raise ZeroDivisionError, w).
Proof. reflexivity. Qed.

Lemma handle_request_zero genre c (w : World G) :
  handle_request engine (ListMoviesByGenre genre 0 c) w = (Raise ZeroDivisionError, w).
Proof. reflexivity. Qed.

(** C1. For every call of [list_movies_by_genre] with cursor [c] and
    page size [s]: the only query it can issue carries the offset
    [skip = c * s] (and the limit [s]); a returned page holds the rows
    of that query, and its [next_cursor] is [skip + s] exactly when
    the page holds [s] movies, and [None] otherwise; and the call does
    return a page whenever [s] is not zero and the query yields rows. *)
Theorem list_movies_by_genre_pagination genre s c (w : World G) :
  let skip := c * s in
  let call := {| q_driver := driver (lifespan_context w);
                 q_text := list_movies_by_genre_query;
                 q_params := [("genre", PStr genre); ("skip", PInt skip); ("limit", PInt s)];
                 q_database := None |} in
  let run := list_movies_by_genre engine genre s c w in
  (issued run.2 = issued w ∨ issued run.2 = issued w ++ [call]) ∧
  (∀ pg, run.1 = Return pg →
     issued run.2 = issued w ++ [call] ∧
     (∃ rows, (engine call (graph w)).1 = Ok rows ∧ page_movies pg = data <$> rows) ∧
     (next_cursor pg = Some (skip + s) ↔ Z.of_nat (length (page_movies pg)) = s) ∧
     (Z.of_nat (length (page_movies pg)) ≠ s → next_cursor pg = None) ∧
     has_more pg = bool_decide (Z.of_nat (length (page_movies pg)) = s)) ∧
  (s ≠ 0 → ∀ rows, (engine call (graph w)).1 = Ok rows → ∃ pg, run.1 = Return pg).
Proof.
  intros skip call run. subst run.
  destruct (Z.eq_dec s 0) as [->|Hs].
  { rewrite list_movies_by_genre_zero. simpl.
    split; [by left|]. split; [intros pg [=] | done]. }
  destruct (list_movies_by_genre_run genre s c w Hs) as [Hissued Hout].
  fold skip in Hissued, Hout. fold call in Hissued, Hout.
  split; [by right|]. split.
  - intros pg Hpg. split; [done|]. rewrite Hpg in Hout.
    destruct (engine call (graph w)).1 as [rows|e|e]; [|done..].
    injection Hout as ->. simpl. split; [by exists rows|].
    case_bool_decide as Hlen; naive_solver.
  - intros _ rows Hrows. rewrite Hrows in Hout. eauto.
Qed.

(** C2. With [page_size = 0] the division [skip // page_size] raises
    [ZeroDivisionError] and nothing else happens: no query is issued,
    no message is sent, the world is as before. A call that returns a
    page therefore had a page size other than zero; and with such a
    page size the division passes, the query is issued, and the call
    returns a page when the query yields rows. *)
Theorem list_movies_by_genre_zero_page_size genre c (w : World G) :
  list_movies_by_genre engine genre 0 c w = (Raise ZeroDivisionError, w) ∧
  (∀ s pg w', list_movies_by_genre engine genre s c w = (Return pg, w') → s ≠ 0) ∧
  (∀ s, s ≠ 0 →
     let call := query_call_of (lifespan_context w) (ListMoviesByGenre genre s c) in
     issued (list_movies_by_genre engine genre s c w).2 = issued w ++ [call] ∧
     ∀ rows, (engine call (graph w)).1 = Ok rows →
       ∃ pg, (list_movies_by_genre engine genre s c w).1 = Return pg).
Proof.
  split; [apply list_movies_by_genre_zero|]. split.
  - intros s pg w' Hrun ->. rewrite list_movies_by_genre_zero in Hrun. discriminate Hrun.
  - intros s Hs call.
    destruct (list_movies_by_genre_run genre s c w Hs) as [Hissued Hout].
    split; [exact Hissued|]. intros rows Hrows.
    unfold call, query_call_of in Hrows. simpl in Hrows.
    rewrite Hrows in Hout. eauto.
Qed.

(** What a request adds to the calls made on the driver: its one call,
    or nothing when it stops before the driver. *)
Lemma handle_request_issued req (w : World G) :
  issued (handle_request engine req w).2
  = issued w ++ (if reaches_driver req then [query_call_of (lifespan_context w) req] else []).
Proof.
  pose proof (handle_request_run req w) as Hrun. simpl in Hrun.
  destruct (handle_request engine req w) as [r w'] eqn:Hreq. simpl.
  destruct Hrun as (_ & _ & [(genre & c & -> & _ & ->)|(Hissued & _)]).
  - simpl. by rewrite app_nil_r.
  - rewrite Hissued. destruct req as [| | |genre s c]; try done.
    simpl. destruct (Z.eqb_spec s 0) as [->|_]; [|done].
    rewrite handle_request_zero in Hreq. injection Hreq as _ <-.
    apply (f_equal length) in Hissued. rewrite length_app in Hissued. simpl in Hissued. lia.
Qed.






(** C8. [graph_statistics]: when the query returns no record the tool
    returns the dict with [nodes] and [relationships] both zero; when
    it returns records, the tool returns the first one as a dict,
    whatever the others are. *)
Theorem graph_statistics_result rows (w : World G) :
  let call := query_call_of (lifespan_context w) GraphStatistics in
  (engine call (graph w)).1 = Ok rows →
  (graph_statistics engine w).1 =
    Return (match rows with
            | [] => {[ "nodes" := py_int 0; "relationships" := py_int 0 ]}
            | first :: _ => list_to_map first
            end).
Proof.
  intros call Hrows. subst call. unfold query_call_of in Hrows. simpl in Hrows.
  unfold graph_statistics. unfold_monad. simpl.
  destruct (engine _ (graph w)) as [[rows'|e|e] g'] eqn:He; simpl in *; [|done..].
  injection Hrows as ->. by destruct rows.
Qed.

(** C10. The application context is determined by its two fields, the
    driver and the database name. Every request that reaches the driver
    makes its one call on the driver read from the lifespan context of
    the world it runs in, naming the database read from that context or
    none; and the lifespan context is the same after a request, and
    after any sequence of requests, as before. *)
Theorem lifespan_context_is_only_read req (w : World G) :
  let ctx := lifespan_context w in
  let call := {| q_driver := driver ctx;
                 q_text := query_text_of req;
                 q_params := query_params_of req;
                 q_database := match req with
                               | GraphStatistics | GetMovie _ => Some (database ctx)
                               | GetMoviesByGenre _ _ | ListMoviesByGenre _ _ _ => None
                               end |} in
  issued (handle_request engine req w).2
    = issued w ++ (if reaches_driver req then [call] else []) ∧
  lifespan_context (handle_request engine req w).2 = ctx ∧
  (∀ reqs, lifespan_context (after_requests engine reqs w) = ctx) ∧
  (∀ ctx' : AppContext,
     driver ctx' = driver ctx → database ctx' = database ctx → ctx' = ctx).
Proof.
  intros ctx call.
  assert (∀ req' (w' : World G),
            lifespan_context (handle_request engine req' w').2 = lifespan_context w') as Hkeep.
  { intros req' w'. pose proof (handle_request_run req' w') as Hrun. simpl in Hrun.
    destruct (handle_request engine req' w') as [r w'']. by destruct Hrun as (? & _). }
  assert (∀ reqs (w' : World G),
            lifespan_context (after_requests engine reqs w') = lifespan_context w') as Hall.
  { induction reqs as [|req' reqs IH]; intros w'; [done|].
    unfold after_requests in *. simpl. by rewrite IH, Hkeep. }
  split; [|split; [apply Hkeep|split]].
  - rewrite handle_request_issued. by destruct req.
  - intros reqs. apply Hall.
  - intros [d' b']. subst ctx. destruct (lifespan_context w) as [d b]. simpl.
    by intros -> ->.
Qed.

End HandlerProperties.

(** * Properties of the letter-counting tool *)

Section StrCountProperties.
Local Open Scope nat_scope.

Lemma starts_with_spec sub text :
  starts_with sub text = true ↔ occurs_at sub text 0.
Proof.
  unfold occurs_at. rewrite drop_0. revert text.
  induction sub as [|a sub IH]; intros text; simpl.
  - split; [intros _; split; [lia | by rewrite take_0] | done].
  - destruct text as [|b text]; simpl.
    + split; [done | intros [? _]; lia].
    + rewrite andb_true_iff, bool_decide_eq_true, IH. split.
      * intros [-> [Hlen Htake]]. split; [lia | by rewrite Htake].
      * intros [Hlen [= -> Htake]]. split; [done|]. split; [lia | done].
Qed.

Lemma count_from_skip sub k text :
  count_from sub k text = count_from sub 0 (drop k text).
Proof.
  revert k. induction text as [|c rest IH]; intros k.
  - by rewrite drop_nil.
  - destruct k as [|k]; [done|]. simpl. apply IH.
Qed.

(** One step of the scan, for a non-empty [sub]. *)
Lemma count_from_step sub c rest :
  sub ≠ [] →
  count_from sub 0 (c :: rest) =
    if starts_with sub (c :: rest)
    then S (count_from sub 0 (drop (length sub) (c :: rest)))
    else count_from sub 0 rest.
Proof.
  intros Hsub. cbn [count_from].
  destruct (starts_with sub (c :: rest)); [|done].
  rewrite count_from_skip. destruct sub as [|a sub]; [done|].
  simpl. by rewrite Nat.sub_0_r.
Qed.

Lemma apart_lower_bound width p ps :
  apart width (p :: ps) → Forall (λ q, p < q ∧ p + width ≤ q) ps.
Proof.
  revert p. induction ps as [|q ps IH]; intros p; [constructor|].
  intros [[Hlt Hle] Hrest]. constructor; [done|].
  eapply Forall_impl; [apply IH, Hrest|]. simpl. intros r [? ?]. lia.
Qed.

Lemma apart_tail width p ps : apart width (p :: ps) → apart width ps.
Proof. by intros [_ ?]. Qed.

(** Occurrences behind position [k] are occurrences in what is left of
    the text there, and the other way round. *)
Lemma occurs_at_drop sub text k p :
  k ≤ p → occurs_at sub text p → occurs_at sub (drop k text) (p - k).
Proof.
  intros Hk. unfold occurs_at. rewrite length_drop, drop_drop.
  replace (k + (p - k)) with p by lia. intros [? ?]. split; [lia | done].
Qed.

Lemma occurs_at_undrop sub text k p :
  k ≤ length text → occurs_at sub (drop k text) p → occurs_at sub text (p + k).
Proof.
  intros Hk. unfold occurs_at. rewrite length_drop, drop_drop.
  replace (k + p) with (p + k) by lia. intros [? ?]. split; [lia | done].
Qed.

Lemma apart_shift_down width k ps :
  Forall (λ q, k ≤ q) ps → apart width ps → apart width ((λ q, q - k) <$> ps).
Proof.
  induction ps as [|p ps IH]; [done|].
  intros Hk Hap. apply Forall_cons in Hk as [Hp Hk]. cbn [fmap list_fmap apart].
  split; [|apply IH; [done | by apply apart_tail in Hap]].
  destruct ps as [|q ps]; [done|]. simpl.
  apply Forall_cons in Hk as [Hq _]. destruct Hap as [[? ?] _]. lia.
Qed.

Lemma apart_shift_up width k ps :
  apart width ps → apart width ((λ q, q + k) <$> ps).
Proof.
  induction ps as [|p ps IH]; [done|].
  intros Hap. cbn [fmap list_fmap apart].
  split; [|apply IH; by apply apart_tail in Hap].
  destruct ps as [|q ps]; [done|]. simpl. destruct Hap as [[? ?] _]. lia.
Qed.

Lemma non_overlapping_drop sub text k ps :
  Forall (λ q, k ≤ q) ps →
  non_overlapping sub text ps →
  non_overlapping sub (drop k text) ((λ q, q - k) <$> ps).
Proof.
  intros Hk [Hocc Hap]. split; [|by apply apart_shift_down].
  apply Forall_fmap. rewrite Forall_forall in Hk, Hocc. apply Forall_forall.
  intros q Hq. simpl. apply occurs_at_drop; auto.
Qed.

Lemma non_overlapping_undrop sub text k ps :
  k ≤ length text →
  non_overlapping sub (drop k text) ps →
  non_overlapping sub text ((λ q, q + k) <$> ps).
Proof.
  intros Hk [Hocc Hap]. split; [|by apply apart_shift_up].
  apply Forall_fmap. rewrite Forall_forall in Hocc. apply Forall_forall.
  intros q Hq. simpl. apply occurs_at_undrop; auto.
Qed.

(** The scan finds as many occurrences as can be kept apart. *)
Lemma count_from_upper sub text ps :
  sub ≠ [] → non_overlapping sub text ps → length ps ≤ count_from sub 0 text.
Proof.
  intros Hsub. remember (length text) as n eqn:Hn.
  revert text Hn ps. induction n as [n IH] using lt_wf_ind. intros text Hn ps Hps.
  destruct ps as [|p ps]; [simpl; lia|].
  assert (0 < length sub) as Hpos by (destruct sub; [done | simpl; lia]).
  destruct text as [|c rest].
  { destruct Hps as [Hocc _]. apply Forall_cons in Hocc as [[Hlen _] _].
    simpl in Hlen. lia. }
  rewrite count_from_step by done.
  destruct (starts_with sub (c :: rest)) eqn:Hstart.
  - (* the occurrences after the first lie behind the match at 0 *)
    assert (Forall (λ q, length sub ≤ q) ps) as Hbehind.
    { destruct Hps as [_ Hap]. apply apart_lower_bound in Hap.
      eapply Forall_impl; [exact Hap|]. simpl. intros q [? ?]. lia. }
    assert (non_overlapping sub (c :: rest) ps) as Hps'.
    { destruct Hps as [Hocc Hap]. split;
        [by apply Forall_cons in Hocc as [_ ?] | by apply apart_tail in Hap]. }
    pose proof (non_overlapping_drop _ _ _ _ Hbehind Hps') as Hshift.
    eapply (IH (length (drop (length sub) (c :: rest)))) in Hshift;
      [|rewrite length_drop; simpl in *; lia | done].
    rewrite length_fmap in Hshift. simpl. lia.
  - (* no occurrence at 0: all of them lie behind the first character *)
    assert (Forall (λ q, 1 ≤ q) (p :: ps)) as Hbehind.
    { assert (p ≠ 0) as Hp.
      { intros ->. destruct Hps as [Hocc _]. apply Forall_cons in Hocc as [H0 _].
        apply starts_with_spec in H0. congruence. }
      constructor; [lia|]. destruct Hps as [_ Hap]. apply apart_lower_bound in Hap.
      eapply Forall_impl; [exact Hap|]. simpl. intros q [? ?]. lia. }
    pose proof (non_overlapping_drop _ _ 1 _ Hbehind Hps) as Hshift.
    change (drop 1 (c :: rest)) with rest in Hshift.
    eapply (IH (length rest)) in Hshift; [|simpl in *; lia | done].
    by rewrite length_fmap in Hshift.
Qed.

Lemma count_from_attained sub text :
  sub ≠ [] → ∃ ps, non_overlapping sub text ps ∧ length ps = count_from sub 0 text.
Proof.
  intros Hsub. remember (length text) as n eqn:Hn.
  revert text Hn. induction n as [n IH] using lt_wf_ind. intros text Hn.
  assert (0 < length sub) as Hpos by (destruct sub; [done | simpl; lia]).
  destruct text as [|c rest].
  { exists []. by repeat split. }
  rewrite count_from_step by done.
  destruct (starts_with sub (c :: rest)) eqn:Hstart.
  - destruct (IH (length (drop (length sub) (c :: rest)))
                ltac:(rewrite length_drop; simpl in *; lia) _ eq_refl)
      as (ps & Hps & Hlen).
    apply non_overlapping_undrop in Hps;
      [|apply starts_with_spec in Hstart as [Hfit _]; exact Hfit].
    exists (0 :: ((λ q, q + length sub) <$> ps)). split.
    + destruct Hps as [Hocc Hap]. split.
      * constructor; [by apply starts_with_spec | done].
      * cbn [apart]. split; [|done].
        destruct ps as [|q ps]; [done|]. simpl. lia.
    + simpl. by rewrite length_fmap, Hlen.
  - destruct (IH (length rest) ltac:(simpl in *; lia) _ eq_refl) as (ps & Hps & Hlen).
    exists ((λ q, q + 1) <$> ps). split.
    + apply (non_overlapping_undrop sub (c :: rest) 1); [simpl; lia|].
      simpl. by rewrite drop_0.
    + by rewrite length_fmap.
Qed.

(** Increasing positions between [lo] and [hi] are at most
    [hi + 1 - lo] many. *)
Lemma apart_bounded width lo hi ps :
  apart width ps → Forall (λ q, lo ≤ q ≤ hi) ps → length ps ≤ S hi - lo.
Proof.
  revert lo. induction ps as [|p ps IH]; intros lo Hap Hb; [simpl; lia|].
  apply Forall_cons in Hb as [Hp Hb].
  specialize (IH (S p) (apart_tail _ _ _ Hap)).
  pose proof (apart_lower_bound _ _ _ Hap) as Hlow.
  assert (Forall (λ r, S p ≤ r ≤ hi) ps) as Hb'.
  { rewrite Forall_forall in Hb, Hlow. apply Forall_forall. intros r Hr.
    specialize (Hb r Hr). specialize (Hlow r Hr). simpl in *. lia. }
  specialize (IH Hb'). simpl in *. lia.
Qed.

Lemma apart_seq lo n : apart 0 (seq lo n).
Proof.
  revert lo. induction n as [|n IH]; intros lo; [done|].
  cbn [seq apart]. split; [|apply IH]. destruct n; [done|]. simpl. lia.
Qed.

(** [str.count] returns the number of non-overlapping occurrences. *)
Lemma str_count_occurrences text sub : occurrences sub text (str_count text sub).
Proof.
  destruct sub as [|a sub].
  - simpl. split.
    + exists (seq 0 (S (length text))). split; [|by rewrite length_seq].
      split; [|apply apart_seq].
      apply Forall_forall. intros p Hp%elem_of_seq. split; [simpl; lia | done].
    + intros ps [Hocc Hap].
      pose proof (apart_bounded 0 0 (length text) ps Hap) as Hb.
      rewrite Nat.sub_0_r in Hb. apply Hb.
      eapply Forall_impl; [exact Hocc|]. intros p [Hlen _]. simpl in *. lia.
  - unfold str_count. split.
    + by apply count_from_attained.
    + intros ps Hps. by apply count_from_upper.
Qed.

End StrCountProperties.

(** * Properties of the connection lifecycle *)

Section LifespanProperties.
Context {S A : Type}.
Variable rejects : string → string * string → option exc.
Variable close_raises : AsyncDriver → option exc.
Variable body : AppContext → S → outcome A * S.

(** The run of [app_lifespan] when the constructor hands out a driver:
    the driver is created, the body runs with it, the driver is
    closed. *)
Lemma app_lifespan_run (p : Process S) :
  let uri := getenv (environ p) "NEO4J_URI" "bolt://localhost:7687" in
  let auth := (getenv (environ p) "NEO4J_USERNAME" "neo4j",
               getenv (environ p) "NEO4J_PASSWORD" "password") in
  let d := {| handle := length (driver_events p); driver_uri := uri; driver_auth := auth |} in
  let ctx := {| driver := d; database := getenv (environ p) "NEO4J_DATABASE" "neo4j" |} in
  rejects uri auth = None →
  app_lifespan rejects close_raises body p =
    (match close_raises d with
     | Some e => Raise e
     | None => (body ctx (server p)).1
     end,
     {| environ := environ p;
        driver_events := driver_events p ++ [Created d; Closed d];
        server := (body ctx (server p)).2 |}).
Proof.
  intros uri auth d ctx Hok. unfold app_lifespan, new_driver.
  fold uri. fold auth. rewrite Hok. fold d. simpl. fold ctx.
  destruct (body ctx (server p)) as [r s']. unfold driver_close. simpl.
  rewrite <- app_assoc. simpl. by destruct (close_raises d).
Qed.

(** When the constructor raises, no driver exists and the body never
    runs. *)
Lemma app_lifespan_rejected (p : Process S) e :
  rejects (getenv (environ p) "NEO4J_URI" "bolt://localhost:7687")
          (getenv (environ p) "NEO4J_USERNAME" "neo4j",
           getenv (environ p) "NEO4J_PASSWORD" "password") = Some e →
  app_lifespan rejects close_raises body p = (Raise e, p).
Proof. intros Hno. unfold app_lifespan, new_driver. by rewrite Hno. Qed.

(** [app_lifespan] looks at the environment through the four
    connection variables only. *)
Lemma app_lifespan_reads_four (p q : Process S) :
  (∀ name, name ∈ connection_variables → environ q !! name = environ p !! name) →
  driver_events q = driver_events p →
  server q = server p →
  (app_lifespan rejects close_raises body q).1 = (app_lifespan rejects close_raises body p).1 ∧
  driver_events (app_lifespan rejects close_raises body q).2
    = driver_events (app_lifespan rejects close_raises body p).2 ∧
  server (app_lifespan rejects close_raises body q).2
    = server (app_lifespan rejects close_raises body p).2.
Proof.
  intros Henv Hev Hsrv. unfold app_lifespan, new_driver, getenv.
  rewrite !Henv by (unfold connection_variables; set_solver).
  rewrite Hev, Hsrv.
  destruct (rejects _ _); simpl; [done|].
  destruct (body _ (server p)) as [r s']. unfold driver_close. simpl.
  by destruct (close_raises _).
Qed.
End LifespanProperties.

Lemma getenv_set env name fallback value :
  env !! name = Some value → getenv env name fallback = value.
Proof. intros Hset. unfold getenv. by rewrite Hset. Qed.

Lemma getenv_unset env name fallback :
  env !! name = None → getenv env name fallback = fallback.
Proof. intros Hunset. unfold getenv. by rewrite Hunset. Qed.

(** [load_dotenv] never replaces a variable that is set, and supplies
    the ones that are not. *)
Lemma load_dotenv_keeps dotenv env name value :
  env !! name = Some value → load_dotenv dotenv env !! name = Some value.
Proof. intros Hset. unfold load_dotenv. by apply lookup_union_Some_l. Qed.

Lemma load_dotenv_supplies dotenv env name :
  env !! name = None → load_dotenv dotenv env !! name = dotenv !! name.
Proof. intros Hunset. unfold load_dotenv. by rewrite lookup_union_r. Qed.


(** The database-backed files all pass the same [app_lifespan]. *)
Lemma database_backed_lifespan mcp l :
  mcp ∈ solutions → lifespan mcp = Some l → l = @app_lifespan.
Proof.
  unfold solutions. rewrite !elem_of_cons, elem_of_nil.
  intros [->|[->|[->|[->|[->|[]]]]]]; simpl; congruence.
Qed.


(** C7. In every database-backed solution file the lifespan takes the
    URI, the user name, the password and the database name from the
    environment variables [NEO4J_URI], [NEO4J_USERNAME],
    [NEO4J_PASSWORD] and [NEO4J_DATABASE], each replaced by its fixed
    default when unset; the driver is built from the first three and the
    context carries the fourth; and two processes whose environments
    agree on these four variables run the lifespan alike. *)
Theorem connection_settings_from_environment mcp l S A rejects close_raises
    (body : AppContext → S → outcome A * S) (p : Process S) :
  mcp ∈ solutions →
  lifespan mcp = Some l →
  let setting name fallback :=
    match environ p !! name with
    | Some value => value
    | None => fallback
    end in
  let uri := setting "NEO4J_URI" "bolt://localhost:7687" in
  let username := setting "NEO4J_USERNAME" "neo4j" in
  let password := setting "NEO4J_PASSWORD" "password" in
  let database := setting "NEO4J_DATABASE" "neo4j" in
  rejects uri (username, password) = None →
  (∃ d,
     driver_uri d = uri ∧ driver_auth d = (username, password) ∧
     Created d ∈ driver_events (l S A rejects close_raises body p).2 ∧
     server (l S A rejects close_raises body p).2
       = (body {| driver := d; database := database |} (server p)).2) ∧
  (∀ q : Process S,
     (∀ name, name ∈ connection_variables → environ q !! name = environ p !! name) →
     driver_events q = driver_events p →
     server q = server p →
     (l S A rejects close_raises body q).1 = (l S A rejects close_raises body p).1 ∧
     driver_events (l S A rejects close_raises body q).2
       = driver_events (l S A rejects close_raises body p).2 ∧
     server (l S A rejects close_raises body q).2
       = server (l S A rejects close_raises body p).2).
Proof.
  intros Hin Hl setting uri username password database Hok.
  rewrite (database_backed_lifespan mcp l Hin Hl). split.
  - eexists {| handle := _; driver_uri := uri; driver_auth := (username, password) |}.
    rewrite app_lifespan_run by exact Hok. simpl.
    split; [done|]. split; [done|]. split; [|reflexivity].
    apply elem_of_app. right. apply elem_of_cons. by left.
  - intros q. apply app_lifespan_reads_four.
Qed.

(** * Properties of the registrations *)

(** C4, as stated, fails on [strawberry/main.py]: it is one of the
    solution files, it registers a tool, and it registers no resource. *)
Lemma strawberry_registers_no_resource :
  Strawberry.mcp ∈ solutions ∧
  tools Strawberry.mcp ≠ [] ∧
  resources Strawberry.mcp = [].
Proof. split; [unfold solutions; set_solver|]. by split. Qed.

(** C4, amended. Every solution file registers at least one tool;
    resources are registered by [3c-create-first-server] and
    [10c-paginated-tool] and by no other file; a prompt is registered by
    [3c-create-first-server] alone; and exactly one file,
    [10c-paginated-tool], has a tool that paginates by offset. *)
Theorem solution_registrations :
  Forall (λ mcp, tools mcp ≠ []) solutions ∧
  (∀ mcp, mcp ∈ solutions →
     (resources mcp ≠ [] ↔ mcp = CreateFirstServer.mcp ∨ mcp = PaginatedTool.mcp) ∧
     (prompts mcp ≠ [] ↔ mcp = CreateFirstServer.mcp) ∧
     (existsb paginates (tools mcp) = true ↔ mcp = PaginatedTool.mcp)) ∧
  registrations <$> solutions
    = [(1, 0, 0, false); (1, 2, 1, false); (1, 0, 0, false); (2, 0, 0, false);
       (3, 1, 0, true)]%nat.
Proof.
  split; [by repeat constructor|]. split; [|reflexivity].
  intros mcp. unfold solutions. rewrite !elem_of_cons, elem_of_nil.
  intros [->|[->|[->|[->|[->|[]]]]]]; simpl;
    (split; [|split]); split; try done; try (intros [?|?]); try intros ?;
    try discriminate; eauto.
Qed.

Lemma database_backed_files :
  database_backed <$> solutions = [false; false; true; true; true].
Proof. reflexivity. Qed.

(** * The letter-counting tool and the case of its arguments *)

Lemma lower_point_idempotent c : lower_point (lower_point c) = lower_point c.
Proof.
  unfold lower_point.
  destruct ((65 <=? c)%N && (c <=? 90)%N) eqn:Hc; [|by rewrite Hc].
  apply andb_true_iff in Hc as [H1%N.leb_le H2%N.leb_le].
  destruct ((65 <=? c + 32)%N && (c + 32 <=? 90)%N) eqn:Hc'; [|done].
  apply andb_true_iff in Hc' as [_ H4%N.leb_le]. lia.
Qed.

Lemma lower_point_upper c : (c < 128)%N → lower_point (upper_point c) = lower_point c.
Proof.
  intros Hc. unfold upper_point.
  destruct ((97 <=? c)%N && (c <=? 122)%N) eqn:Hrange.
  - apply andb_true_iff in Hrange as [H1%N.leb_le H2%N.leb_le].
    unfold lower_point.
    assert ((65 <=? c - 32)%N && (c - 32 <=? 90)%N = true) as ->.
    { apply andb_true_iff. split; apply N.leb_le; lia. }
    assert ((65 <=? c)%N && (c <=? 90)%N = false) as ->.
    { apply andb_false_iff. right. apply N.leb_gt. lia. }
    lia.
  - destruct (N.eqb_spec c 305) as [->|_]; [lia | done].
Qed.

(** On ASCII text, [upper] then [lower] is [lower]. *)
Lemma basic_lower_upper s :
  Forall (λ c, (c < 128)%N) s → basic_lower (basic_upper s) = basic_lower s.
Proof.
  unfold basic_lower, basic_upper. induction 1 as [|c s Hc _ IH]; [done|].
  cbn [fmap list_fmap] in *. by rewrite lower_point_upper, IH.
Qed.

Lemma basic_lower_idempotent s : basic_lower (basic_lower s) = basic_lower s.
Proof.
  unfold basic_lower. induction s as [|c s IH]; [done|].
  cbn [fmap list_fmap] in *. by rewrite lower_point_idempotent, IH.
Qed.

(** Strings that differ only in the case of ASCII letters have the same
    lowercase form. *)
Lemma same_letters_lower a b : same_letters a b → basic_lower a = basic_lower b.
Proof.
  unfold same_letters, basic_lower. induction 1 as [|x y a b Hxy _ IH]; [done|].
  cbn [fmap list_fmap] in *. rewrite IH. f_equal.
  destruct Hxy as [->|(_ & _ & ?)]; done.
Qed.

(** C9, as stated, fails on the dotless i (U+0131): it is its own
    lowercase form, so the tool finds it once in itself; [str.upper]
    turns it into the letter I, whose lowercase form is the dotted i,
    and the tool then finds it no more. *)
Lemma count_letters_dotless_i :
  basic_upper [305%N] = points "I" ∧
  count_letters basic_lower [305%N] [305%N] = 1%nat ∧
  count_letters basic_lower (basic_upper [305%N]) [305%N] = 0%nat.
Proof. repeat split. Qed.

Lemma upper_point_ascii c : (c < 128)%N → (upper_point c < 128)%N.
Proof.
  intros Hc. unfold upper_point.
  destruct ((97 <=? c)%N && (c <=? 122)%N); [lia|].
  destruct (N.eqb_spec c 305); lia.
Qed.

Lemma lower_point_ascii c : (c < 128)%N → (lower_point c < 128)%N.
Proof.
  intros Hc. unfold lower_point.
  destruct ((65 <=? c)%N && (c <=? 90)%N) eqn:Hrange; [|done].
  apply andb_true_iff in Hrange as [_ Hle%N.leb_le]. lia.
Qed.

(** [str.upper] and [str.lower] change an ASCII string in the case of
    its letters only. *)
Lemma same_letters_upper s : Forall (λ c, (c < 128)%N) s → same_letters s (basic_upper s).
Proof.
  unfold same_letters, basic_upper. induction 1 as [|c s Hc _ IH]; [constructor|].
  cbn [fmap list_fmap]. constructor; [|exact IH]. right.
  split; [done|]. split; [by apply upper_point_ascii|]. symmetry. by apply lower_point_upper.
Qed.

Lemma same_letters_lowered s : Forall (λ c, (c < 128)%N) s → same_letters s (basic_lower s).
Proof.
  unfold same_letters, basic_lower. induction 1 as [|c s Hc _ IH]; [constructor|].
  cbn [fmap list_fmap]. constructor; [|exact IH]. right.
  split; [done|]. split; [by apply lower_point_ascii|]. symmetry. apply lower_point_idempotent.
Qed.

(** C9, amended. For all strings, whatever [str.lower] does to them,
    [count_letters text search] is the number of non-overlapping
    occurrences of the lowercase form of [search] in the lowercase form
    of [text]. For ASCII arguments the result does not depend on the
    case of letters: it is the same for any strings that differ from
    [text] and [search] only in the case of letters, as their
    [str.upper] and [str.lower] forms do. *)
Theorem count_letters_occurrences :
  (∀ (lower : pystr → pystr) text search,
     occurrences (lower search) (lower text) (count_letters lower text search)) ∧
  (∀ text text' search search',
     Forall (λ c, (c < 128)%N) text →
     Forall (λ c, (c < 128)%N) search →
     same_letters text text' →
     same_letters search search' →
     count_letters basic_lower text' search' = count_letters basic_lower text search) ∧
  (∀ s, Forall (λ c, (c < 128)%N) s →
        same_letters s (basic_upper s) ∧ same_letters s (basic_lower s)).
Proof.
  split; [|split].
  - intros lower text search. apply str_count_occurrences.
  - intros text text' search search' _ _ Htext Hsearch. unfold count_letters.
    by rewrite (same_letters_lower _ _ Htext), (same_letters_lower _ _ Hsearch).
  - intros s Hs. split; [by apply same_letters_upper | by apply same_letters_lowered].
Qed.

Ltac ascii_points := repeat constructor.
Ltac same_letters_by_case :=
  repeat (constructor; [first [left; reflexivity | right; repeat split; reflexivity]|]);
  constructor.

Lemma count_letters_occurrences_witness :
  occurrences (basic_lower (points "R")) (basic_lower (points "Strawberry"))
    (count_letters basic_lower (points "Strawberry") (points "R")) ∧
  count_letters basic_lower (points "sTRAWBERRy") (points "r")
    = count_letters basic_lower (points "Strawberry") (points "R").
Proof.
  split.
  - apply (proj1 count_letters_occurrences basic_lower).
  - apply (proj1 (proj2 count_letters_occurrences)
             (points "Strawberry") (points "sTRAWBERRy") (points "R") (points "r")).
    + ascii_points.
    + ascii_points.
    + same_letters_by_case.
    + same_letters_by_case.
Defined.

(** * The handlers on the sample database *)

Example list_first_page :
  (list_movies_by_genre Sample.engine "Action" 2 0 Sample.world).1
  = Return {| page_genre := "Action";
              page_movies := data <$> (Sample.title_row "rating" <$> ["Aliens"; "Heat"]);
              next_cursor := Some 2; page := 1; page_size_ := 2; has_more := true |}.
Proof. reflexivity. Qed.

Example list_last_page :
  let run := list_movies_by_genre Sample.engine "Action" 2 1 Sample.world in
  (next_cursor <$> match run.1 with Return pg => Some pg | _ => None end) = Some None ∧
  map q_params (issued run.2)
    = [[("genre", PStr "Action"); ("skip", PInt 2); ("limit", PInt 2)]] ∧
  messages run.2
    = [(Info, "Fetching Action movies, page 2 (showing 2 per page)...");
       (Info, "Returned 1 movies from page 2");
       (Info, "This is the last page")].
Proof. repeat split. Qed.

Example list_zero_page_size :
  list_movies_by_genre Sample.engine "Action" 0 1 Sample.world
  = (Raise ZeroDivisionError, Sample.world).
Proof. reflexivity. Qed.

Example get_movie_matrix :
  (get_movie Sample.engine "603" Sample.world).1
  = Return "# The Matrix (1999-03-31)

_Welcome to the Real World_

**Runtime:** 136 minutes
**Genres:** Action, Sci-Fi
**Director(s):** Lana Wachowski, Lilly Wachowski

## Plot
A hacker learns the truth.

## Cast
- Keanu Reeves as Neo
- Carrie-Anne Moss".
Proof. reflexivity. Qed.

Example get_movie_unknown :
  get_movie Sample.engine "0" Sample.world
  = (Return "Movie with TMDB ID 0 not found in database",
     {| lifespan_context := Sample.context;
        messages := [(Info, "Fetching movie details for TMDB ID: 0");
                     (Warning, "Movie with TMDB ID 0 not found")];
        issued := [query_call_of Sample.context (GetMovie "0")];
        graph := 0%nat |}).
Proof. reflexivity. Qed.

Example get_movies_negative_limit :
  let run := get_movies_by_genre Sample.engine "Action" (-1) Sample.world in
  run.1 = Raise Sample.negative ∧
  messages run.2
    = [(Info, "Searching for Action movies (limit: -1)...");
       (Debug, "Executing Cypher query for genre: Action");
       (Error, "Query failed: Invalid input. Must be a non-negative integer.")].
Proof. by split. Qed.

Example count_examples :
  count_letters basic_lower (points "Strawberry") (points "R") = 3%nat ∧
  count_letters basic_lower (points "aaaa") (points "aa") = 2%nat ∧
  count_letters basic_lower (points "abc") (points "") = 4%nat.
Proof. by repeat split. Qed.

(** * The claims at concrete inputs *)




Lemma graph_statistics_result_witness :
  (graph_statistics Sample.engine Sample.world).1
  = Return (list_to_map [("nodes", VInt 5); ("relationships", VInt 4)]).
Proof.
  apply (graph_statistics_result Sample.engine
           [[("nodes", VInt 5); ("relationships", VInt 4)]] Sample.world).
  reflexivity.
Defined.

Lemma paginated_tool_is_a_solution : PaginatedTool.mcp ∈ solutions.
Proof. unfold solutions. do 4 apply list_elem_of_further. apply list_elem_of_here. Defined.


Lemma connection_settings_from_environment_witness :
  ∃ d,
    driver_uri d = "neo4j://graph.example:7687" ∧
    driver_auth d = ("neo4j", "password") ∧
    Created d ∈ driver_events (app_lifespan Sample.accepts Sample.closes Sample.failing_server
                                 Sample.process).2.
Proof.
  destruct (connection_settings_from_environment PaginatedTool.mcp (@app_lifespan) nat unit
              Sample.accepts Sample.closes Sample.failing_server Sample.process
              paginated_tool_is_a_solution eq_refl eq_refl)
    as [(d & Huri & Hauth & Hin & _) _].
  exists d. split; [exact Huri|]. split; [exact Hauth|]. exact Hin.
Defined.

(** * Further properties of the handlers *)

Section MoreHandlerProperties.
Context {V : Type} `{PyValue V} {G : Type}.
Variable engine : QueryCall → G → result (list (list (string * V))) * G.

(** X1. A page that [list_movies_by_genre] returns is numbered
    [cursor + 1], and repeats the genre and the page size it was asked
    for. *)
Theorem returned_page_number genre s c (w : World G) pg :
  (list_movies_by_genre engine genre s c w).1 = Return pg →
  page pg = c + 1 ∧ page_size_ pg = s ∧ page_genre pg = genre.
Proof.
  intros Hpg. destruct (Z.eq_dec s 0) as [->|Hs].
  { rewrite list_movies_by_genre_zero in Hpg. discriminate Hpg. }
  destruct (list_movies_by_genre_run engine genre s c w Hs) as [_ Hout].
  rewrite Hpg in Hout.
  destruct (engine _ (graph w)).1 as [rows|e|e]; [|discriminate Hout..].
  injection Hout as ->. simpl. by rewrite Z.div_mul.
Qed.

(** X2. When a page comes back with a [next_cursor] and that value is
    passed as the cursor of the next call, with the same page size, the
    next query skips [(c * s + s) * s] rows. That is where the page just
    read ended, [c * s + s], only for a page size of one (or for the
    cursor [-1]); the call with the cursor [c + 1] is the one that
    skips [c * s + s] rows. *)
Theorem next_cursor_as_cursor genre s c (w w2 : World G) pg n :
  (list_movies_by_genre engine genre s c w).1 = Return pg →
  next_cursor pg = Some n →
  n = c * s + s ∧
  issued (list_movies_by_genre engine genre s n w2).2
    = issued w2 ++
      [{| q_driver := driver (lifespan_context w2);
          q_text := list_movies_by_genre_query;
          q_params := [("genre", PStr genre); ("skip", PInt ((c * s + s) * s));
                       ("limit", PInt s)];
          q_database := None |}] ∧
  ((c * s + s) * s = c * s + s ↔ s = 1 ∨ c = -1) ∧
  issued (list_movies_by_genre engine genre s (c + 1) w2).2
    = issued w2 ++
      [{| q_driver := driver (lifespan_context w2);
          q_text := list_movies_by_genre_query;
          q_params := [("genre", PStr genre); ("skip", PInt (c * s + s)); ("limit", PInt s)];
          q_database := None |}].
Proof.
  intros Hpg Hnext. destruct (Z.eq_dec s 0) as [->|Hs].
  { rewrite list_movies_by_genre_zero in Hpg. discriminate Hpg. }
  destruct (list_movies_by_genre_run engine genre s c w Hs) as [_ Hout].
  rewrite Hpg in Hout.
  destruct (engine _ (graph w)).1 as [rows|e|e]; [|discriminate Hout..].
  injection Hout as ->. simpl in Hnext.
  case_bool_decide; [|discriminate Hnext]. injection Hnext as <-.
  split; [done|]. split; [|split].
  - by destruct (list_movies_by_genre_run engine genre s (c * s + s) w2 Hs) as [-> _].
  - split.
    + intros Heq. assert ((c + 1) * s * (s - 1) = 0) as Hz by lia.
      apply Z.mul_eq_0 in Hz as [Hz|Hz]; [|lia].
      apply Z.mul_eq_0 in Hz as [Hz|Hz]; lia.
    + intros [->| ->]; lia.
  - destruct (list_movies_by_genre_run engine genre s (c + 1) w2 Hs) as [-> _].
    by replace ((c + 1) * s) with (c * s + s) by lia.
Qed.

(** X3. With a negative page size no page is ever full: a page that
    comes back has no [next_cursor] and [has_more] is false. *)
Theorem negative_page_size_has_no_next genre s c (w : World G) pg :
  s < 0 →
  (list_movies_by_genre engine genre s c w).1 = Return pg →
  next_cursor pg = None ∧ has_more pg = false.
Proof.
  intros Hneg Hpg.
  destruct (list_movies_by_genre_run engine genre s c w ltac:(lia)) as [_ Hout].
  rewrite Hpg in Hout.
  destruct (engine _ (graph w)).1 as [rows|e|e]; [|discriminate Hout..].
  injection Hout as ->. simpl. rewrite bool_decide_eq_false_2; [done | lia].
Qed.

(** X4. What [list_movies_by_genre] tells the client when its query
    yields rows: the page it fetches, how many movies it returned, and,
    exactly when the page is not full, that this is the last page. *)
Theorem list_movies_by_genre_messages genre s c (w : World G) rows :
  s ≠ 0 →
  let call := query_call_of (lifespan_context w) (ListMoviesByGenre genre s c) in
  (engine call (graph w)).1 = Ok rows →
  messages (list_movies_by_genre engine genre s c w).2
    = messages w
      ++ [(Info, "Fetching " +:+ genre +:+ " movies, page " +:+ pretty (c + 1)
                 +:+ " (showing " +:+ pretty s +:+ " per page)...");
          (Info, "Returned " +:+ pretty (length rows) +:+ " movies from page "
                 +:+ pretty (c + 1))]
      ++ (if bool_decide (Z.of_nat (length rows) = s) then []
          else [(Info, "This is the last page")]).
Proof.
  intros Hs call Hrows. subst call. unfold query_call_of in Hrows. simpl in Hrows.
  unfold list_movies_by_genre. rewrite (floordiv_nonzero _ _ Hs), Z.div_mul by done.
  unfold_monad. simpl.
  destruct (engine _ (graph w)) as [[rows'|e|e] g']; simpl in *; [|discriminate Hrows..].
  injection Hrows as ->. rewrite length_fmap.
  case_bool_decide as Hfull; simpl; rewrite <- !app_assoc;
    [rewrite (bool_decide_eq_true_2 _ Hfull) | rewrite (bool_decide_eq_false_2 _ Hfull)];
    done.
Qed.

(** X5. [get_movies_by_genre], when its query yields rows, returns them
    as dicts in the order of the rows, and tells the client what it
    searched for and how many movies it found, with a warning exactly
    when it found none. *)
Theorem get_movies_by_genre_found genre limit (w : World G) rows :
  let call := query_call_of (lifespan_context w) (GetMoviesByGenre genre limit) in
  (engine call (graph w)).1 = Ok rows →
  (get_movies_by_genre engine genre limit w).1 = Return (list_to_map <$> rows) ∧
  messages (get_movies_by_genre engine genre limit w).2
    = messages w
      ++ [(Info, "Searching for " +:+ genre +:+ " movies (limit: " +:+ pretty limit +:+ ")...");
          (Debug, "Executing Cypher query for genre: " +:+ genre);
          (Info, "Found " +:+ pretty (length rows) +:+ " " +:+ genre +:+ " movies")]
      ++ (if bool_decide (rows = []) then [(Warning, "No movies found for genre: " +:+ genre)]
          else []).
Proof.
  intros call Hrows. subst call. unfold query_call_of in Hrows. simpl in Hrows.
  unfold get_movies_by_genre. unfold_monad. simpl.
  destruct (engine _ (graph w)) as [[rows'|e|e] g']; simpl in *; [|discriminate Hrows..].
  injection Hrows as ->. rewrite length_fmap.
  destruct rows as [|r rows]; simpl; (split; [done|]); by rewrite <- !app_assoc.
Qed.

(** X6. [get_movie] for an id the database does not know: the handler
    returns the "not found" text, warns the client, and raises
    nothing. *)
Theorem get_movie_not_found tmdb_id (w : World G) :
  let call := query_call_of (lifespan_context w) (GetMovie tmdb_id) in
  (engine call (graph w)).1 = Ok [] →
  (get_movie engine tmdb_id w).1
    = Return ("Movie with TMDB ID " +:+ tmdb_id +:+ " not found in database") ∧
  messages (get_movie engine tmdb_id w).2
    = messages w
      ++ [(Info, "Fetching movie details for TMDB ID: " +:+ tmdb_id);
          (Warning, "Movie with TMDB ID " +:+ tmdb_id +:+ " not found")].
Proof.
  intros call Hrows. subst call. unfold query_call_of in Hrows. simpl in Hrows.
  unfold get_movie. unfold_monad. simpl.
  destruct (engine _ (graph w)) as [[rows'|e|e] g']; simpl in *; [|discriminate Hrows..].
  injection Hrows as ->. simpl. split; [done|]. by rewrite <- !app_assoc.
Qed.

(** X7. [get_movie] for a row it cannot format: the exception raised
    while formatting (a missing key, a plot that is not a string) is
    caught by the same [except] clause as a query failure; the handler
    sends the error message ending in [str(e)] and raises [e]. *)
Theorem get_movie_unformattable tmdb_id (w : World G) row others e :
  let call := query_call_of (lifespan_context w) (GetMovie tmdb_id) in
  (engine call (graph w)).1 = Ok (row :: others) →
  format_movie (list_to_map row) = Err e →
  (get_movie engine tmdb_id w).1 = Raise e ∧
  messages (get_movie engine tmdb_id w).2
    = messages w
      ++ [(Info, "Fetching movie details for TMDB ID: " +:+ tmdb_id);
          (Error, "Failed to fetch movie: " +:+ exc_str e)].
Proof.
  intros call Hrows Hfmt. subst call. unfold query_call_of in Hrows. simpl in Hrows.
  unfold get_movie. unfold_monad. simpl.
  destruct (engine _ (graph w)) as [[rows'|e'|e'] g']; simpl in *; [|discriminate Hrows..].
  injection Hrows as ->. simpl. unfold data. rewrite Hfmt. simpl.
  split; [done|]. by rewrite <- !app_assoc.
Qed.

(** X8. [get_movie] for a row it can format: the handler returns the
    text of the first row, whatever rows follow, and tells the client
    the title it fetched. *)
Theorem get_movie_found tmdb_id (w : World G) row others text :
  let call := query_call_of (lifespan_context w) (GetMovie tmdb_id) in
  (engine call (graph w)).1 = Ok (row :: others) →
  format_movie (list_to_map row) = Ok text →
  ∃ title,
    (list_to_map row : gmap string V) !! "title" = Some title ∧
    (get_movie engine tmdb_id w).1 = Return text ∧
    messages (get_movie engine tmdb_id w).2
      = messages w
        ++ [(Info, "Fetching movie details for TMDB ID: " +:+ tmdb_id);
            (Info, "Successfully fetched details for '" +:+ py_format title +:+ "'")].
Proof.
  intros call Hrows Hfmt. subst call. unfold query_call_of in Hrows. simpl in Hrows.
  assert (∃ title, (list_to_map row : gmap string V) !! "title" = Some title) as [title Htitle].
  { unfold format_movie, dict_getitem in Hfmt.
    destruct ((list_to_map row : gmap string V) !! "title") as [title|]; [eauto|].
    discriminate Hfmt. }
  exists title. split; [done|].
  unfold get_movie. unfold_monad. simpl.
  destruct (engine _ (graph w)) as [[rows'|e'|e'] g']; simpl in *; [|discriminate Hrows..].
  injection Hrows as ->. simpl. unfold data. rewrite Hfmt. simpl.
  unfold dict_getitem. rewrite Htitle. simpl.
  split; [done|]. by rewrite <- !app_assoc.
Qed.

End MoreHandlerProperties.

Section FormatProperties.
Context {V : Type} `{PyValue V}.

Lemma dict_getitem_ok (d : gmap string V) key v :
  dict_getitem d key = Ok v → d !! key = Some v.
Proof. unfold dict_getitem. destruct (d !! key); [by intros [= ->] | done]. Qed.

Lemma join_items_ok i (items : list (string + V)) ss :
  join_items i items = Ok ss → Forall (λ x, is_Some (item_text x)) items.
Proof.
  revert i ss. induction items as [|x items IH]; intros i ss; [constructor|].
  simpl. destruct (item_text x) as [s|] eqn:Hx; [|done].
  destruct (join_items (S i) items) as [ss'|e|e] eqn:Hrest; [|done..].
  intros _. constructor; [by rewrite Hx | by eapply IH].
Qed.

Lemma str_join_ok sep (items : list (string + V)) text :
  str_join sep items = Ok text → Forall (λ x, is_Some (item_text x)) items.
Proof.
  unfold str_join. destruct (join_items 0 items) as [ss|e|e] eqn:Hitems; [|done..].
  intros _. by eapply join_items_ok.
Qed.

Lemma str_join_value_ok sep (v : V) text :
  str_join_value sep v = Ok text →
  ∃ items, py_iter v = Ok items ∧ Forall (λ x, is_Some (py_as_str x)) items.
Proof.
  unfold str_join_value. destruct (py_iter v) as [items|e|e]; [|done..].
  intros Hjoin%str_join_ok. exists items. split; [done|].
  rewrite Forall_forall in Hjoin. apply Forall_forall. intros x Hx.
  apply (Hjoin (inr x)). by apply list_elem_of_fmap_2.
Qed.

(** X9. What [get_movie] needs of a row to format it: the row has all
    eight keys, its plot is a string, and its genres can be iterated
    and are all strings. A movie stored without a plot, for one, cannot
    be formatted. *)
Theorem format_movie_needs (movie : gmap string V) text :
  format_movie movie = Ok text →
  Forall (λ key, is_Some (movie !! key)) movie_keys ∧
  (∃ plot s, movie !! "plot" = Some plot ∧ py_as_str plot = Some s) ∧
  (∃ genres names,
     movie !! "genres" = Some genres ∧ py_iter genres = Ok names ∧
     Forall (λ v, is_Some (py_as_str v)) names).
Proof.
  unfold format_movie. intros Hfmt.
  destruct (dict_getitem movie "title") as [title| |] eqn:Htitle; [|done..].
  destruct (dict_getitem movie "released") as [released| |] eqn:Hreleased; [|done..].
  destruct (dict_getitem movie "tagline") as [tagline| |] eqn:Htagline; [|done..].
  simpl in Hfmt.
  match type of Hfmt with
  | context [mbind _ ?o] => destruct o as [output1| |] eqn:Hout1; [|done..]
  end.
  simpl in Hfmt.
  destruct (dict_getitem movie "runtime") as [runtime| |] eqn:Hruntime; [|done..].
  destruct (dict_getitem movie "genres") as [genres| |] eqn:Hgenres; [|done..].
  simpl in Hfmt.
  destruct (str_join_value ", " genres) as [genres_text| |] eqn:Hgtext; [|done..].
  simpl in Hfmt.
  destruct (dict_getitem movie "directors") as [directors| |] eqn:Hdirectors; [|done..].
  simpl in Hfmt.
  match type of Hfmt with
  | context [mbind _ ?o] => destruct o as [output2| |] eqn:Hout2; [|done..]
  end.
  simpl in Hfmt.
  destruct (dict_getitem movie "plot") as [plot| |] eqn:Hplot; [|done..].
  destruct (dict_getitem movie "actors") as [actors| |] eqn:Hactors; [|done..].
  simpl in Hfmt.
  match type of Hfmt with
  | context [mbind _ ?o] => destruct o as [output3| |] eqn:Hout3; [|done..]
  end.
  simpl in Hfmt. apply str_join_ok in Hfmt.
  apply dict_getitem_ok in Htitle, Hreleased, Htagline, Hruntime, Hgenres, Hdirectors,
    Hplot, Hactors.
  split; [|split].
  - unfold movie_keys. repeat constructor;
      by match goal with Hkey : movie !! ?k = _ |- is_Some (movie !! ?k) => rewrite Hkey end.
  - assert (is_Some (item_text (inr plot : string + V))) as [s Hs].
    { assert (inr plot ∈ output3) as Hin.
      { destruct (py_bool actors).
        - simpl in Hout3.
          destruct (py_iter actors) as [items| |]; [|done..]. simpl in Hout3.
          destruct (cast_lines items) as [lines| |]; [|done..].
          injection Hout3 as <-. rewrite !elem_of_app. left. left. right.
          apply list_elem_of_here.
        - injection Hout3 as <-. rewrite elem_of_app. right. apply list_elem_of_here. }
      rewrite Forall_forall in Hfmt. by apply Hfmt. }
    by exists plot, s.
  - apply str_join_value_ok in Hgtext as (names & Hiter & Hnames). by exists genres, names.
Qed.

End FormatProperties.

Section RequestProperties.
Context {V : Type} `{PyValue V} {G : Type}.
Variable engine : QueryCall → G → result (list (list (string * V))) * G.

(** X10. [graph_statistics] sends the client no message, whether it
    returns or raises, and has no [except] clause: a failure of its
    query is the outcome of the tool as it is. *)
Theorem graph_statistics_is_silent (w : World G) :
  messages (graph_statistics engine w).2 = messages w ∧
  ∀ e, (engine (query_call_of (lifespan_context w) GraphStatistics) (graph w)).1 = Err e →
       (graph_statistics engine w).1 = Raise e.
Proof.
  unfold query_call_of, graph_statistics. unfold_monad. simpl.
  destruct (engine _ (graph w)) as [[rows|e|e] g']; simpl.
  - destruct rows; simpl; (split; [done|]); intros e [=].
  - split; [done|]. by intros e' [= ->].
  - split; [done|]. intros e' [=].
Qed.

(** X11. A request makes at most one call on the driver, and takes
    nothing back: the calls and the messages recorded before it are
    still there after it, in the same order. *)
Theorem one_call_per_request req (w : World G) :
  issued w `prefix_of` issued (handle_request engine req w).2 ∧
  (length (issued (handle_request engine req w).2) ≤ length (issued w) + 1)%nat ∧
  messages w `prefix_of` messages (handle_request engine req w).2.
Proof.
  pose proof (handle_request_run engine req w) as Hrun. simpl in Hrun.
  destruct (handle_request engine req w) as [r w'] eqn:Hreq. simpl.
  destruct Hrun as (_ & [more Hmore] & [(genre & c & _ & _ & ->)|(Hissued & _ & _)]).
  - split; [done|]. split; [lia|]. done.
  - rewrite Hissued, Hmore, length_app. simpl.
    split; [by apply prefix_app_r|]. split; [lia|]. by apply prefix_app_r.
Qed.

(** X12. A request that returns has sent no error message: the messages
    it added are at the debug, info or warning level. *)
Theorem no_error_message_on_success req (w : World G) response :
  (handle_request engine req w).1 = Return response →
  ∃ more,
    messages (handle_request engine req w).2 = messages w ++ more ∧
    Forall (λ message, message.1 ≠ Error) more.
Proof.
  destruct req as [|genre limit|tmdb_id|genre s c]; simpl.
  - unfold graph_statistics. unfold_monad. simpl.
    destruct (engine _ (graph w)) as [[rows|e|e] g']; simpl; [|done..].
    destruct rows; simpl; intros _; exists []; by rewrite app_nil_r.
  - unfold get_movies_by_genre. unfold_monad. simpl.
    destruct (engine _ (graph w)) as [[rows|e|e] g']; simpl; [|done..].
    case_bool_decide; simpl; intros _; rewrite <- !app_assoc;
      (eexists; split; [reflexivity|]); by repeat constructor.
  - unfold get_movie. unfold_monad. simpl.
    destruct (engine _ (graph w)) as [[rows|e|e] g']; simpl; [|done..].
    destruct rows as [|r rows]; simpl.
    + intros _. rewrite <- !app_assoc. eexists. split; [reflexivity|].
      by repeat constructor.
    + destruct (format_movie (data r)) as [text|e|e]; simpl; [|done..].
      destruct (dict_getitem (data r) "title") as [title|e|e]; simpl; [|done..].
      intros _. rewrite <- !app_assoc. eexists. split; [reflexivity|].
      by repeat constructor.
  - unfold list_movies_by_genre.
    destruct (Z.eq_dec s 0) as [->|Hs]; [done|].
    rewrite (floordiv_nonzero _ _ Hs). unfold_monad. simpl.
    destruct (engine _ (graph w)) as [[rows|e|e] g']; simpl; [|done..].
    case_bool_decide; simpl; intros _; rewrite <- !app_assoc;
      (eexists; split; [reflexivity|]); by repeat constructor.
Qed.

(** X21. Which database a call names: a request that reaches the
    driver makes one call; for [graph_statistics] and [get_movie] the
    call passes the database name of the lifespan context to the
    driver; for [get_movies_by_genre] and [list_movies_by_genre] it
    passes none, so their queries go to the driver's default database
    whatever name the context holds. *)
Theorem database_named_by_request req (w : World G) :
  reaches_driver req = true →
  ∃ call,
    issued (handle_request engine req w).2 = issued w ++ [call] ∧
    q_driver call = driver (lifespan_context w) ∧
    q_database call =
      match req with
      | GraphStatistics | GetMovie _ => Some (database (lifespan_context w))
      | GetMoviesByGenre _ _ | ListMoviesByGenre _ _ _ => None
      end.
Proof.
  intros Hreach. exists (query_call_of (lifespan_context w) req).
  rewrite (handle_request_issued engine), Hreach. split; [done|]. split; [done|].
  by destruct req.
Qed.

End RequestProperties.

(** * Further properties of the connection lifecycle *)

(** X13. When the driver constructor raises, every database-backed file
    lets the exception out of the lifespan as it is: the server never
    runs, no driver exists, and nothing is closed. *)
Theorem lifespan_constructor_failure mcp l S A rejects close_raises
    (body : AppContext → S → outcome A * S) (p : Process S) e :
  mcp ∈ solutions →
  lifespan mcp = Some l →
  rejects (getenv (environ p) "NEO4J_URI" "bolt://localhost:7687")
          (getenv (environ p) "NEO4J_USERNAME" "neo4j",
           getenv (environ p) "NEO4J_PASSWORD" "password") = Some e →
  l S A rejects close_raises body p = (Raise e, p).
Proof.
  intros Hin Hl Hno. rewrite (database_backed_lifespan mcp l Hin Hl).
  unfold app_lifespan, new_driver. by rewrite Hno.
Qed.

(** X14. When [close] raises, its exception is the outcome of the
    lifespan, whatever the server returned or raised before; the server
    has run and the driver has been handed to [close] all the same. *)
Theorem lifespan_close_failure mcp l S A rejects close_raises
    (body : AppContext → S → outcome A * S) (p : Process S) e :
  mcp ∈ solutions →
  lifespan mcp = Some l →
  rejects (getenv (environ p) "NEO4J_URI" "bolt://localhost:7687")
          (getenv (environ p) "NEO4J_USERNAME" "neo4j",
           getenv (environ p) "NEO4J_PASSWORD" "password") = None →
  (∀ d, close_raises d = Some e) →
  ∃ d,
    (l S A rejects close_raises body p).1 = Raise e ∧
    driver_events (l S A rejects close_raises body p).2
      = driver_events p ++ [Created d; Closed d] ∧
    server (l S A rejects close_raises body p).2
      = (body {| driver := d; database := getenv (environ p) "NEO4J_DATABASE" "neo4j" |}
           (server p)).2.
Proof.
  intros Hin Hl Hok Hclose. rewrite (database_backed_lifespan mcp l Hin Hl).
  eexists. rewrite app_lifespan_run by exact Hok. simpl. rewrite Hclose.
  split; [reflexivity|]. split; reflexivity.
Qed.

(** * Further properties of the letter-counting tool *)

Section MoreStrCountProperties.
Local Open Scope nat_scope.

(** Matches that do not overlap fit in the text side by side. *)
Lemma count_from_width sub text :
  sub ≠ [] → count_from sub 0 text * length sub ≤ length text.
Proof.
  intros Hsub. remember (length text) as n eqn:Hn.
  revert text Hn. induction n as [n IH] using lt_wf_ind. intros text ->.
  assert (0 < length sub) as Hpos by (destruct sub; [done | simpl; lia]).
  destruct text as [|c rest]; [simpl; lia|].
  rewrite count_from_step by done.
  destruct (starts_with sub (c :: rest)) eqn:Hstart.
  - apply starts_with_spec in Hstart as [Hfit _]. simpl in Hfit.
    specialize (IH (length (drop (length sub) (c :: rest)))
                  ltac:(rewrite length_drop; simpl; lia) _ eq_refl).
    rewrite length_drop in IH. simpl in *. lia.
  - specialize (IH (length rest) ltac:(simpl; lia) _ eq_refl). simpl. lia.
Qed.

Lemma occurs_at_app_l sub a b p : occurs_at sub a p → occurs_at sub (a ++ b) p.
Proof.
  unfold occurs_at. intros [Hfit Htake]. rewrite length_app. split; [lia|].
  rewrite drop_app_le by lia. rewrite take_app_le; [done|]. rewrite length_drop. lia.
Qed.

Lemma apart_app width l1 l2 :
  apart width l1 → apart width l2 →
  (∀ p q, p ∈ l1 → q ∈ l2 → p < q ∧ p + width ≤ q) →
  apart width (l1 ++ l2).
Proof.
  intros H1 H2 Hcross. induction l1 as [|p l1 IH]; [done|].
  destruct H1 as [Hhead Htail]. cbn [app apart]. split.
  - destruct l1 as [|q l1]; simpl.
    + destruct l2 as [|q l2]; [done|]. apply Hcross; apply list_elem_of_here.
    + done.
  - apply IH; [done|]. intros p' q Hp Hq. apply Hcross; [|done].
    by apply list_elem_of_further.
Qed.

(** The occurrences counted in two texts are still there, and still
    apart, in the two texts put together. *)
Lemma count_from_app sub a b :
  sub ≠ [] → count_from sub 0 a + count_from sub 0 b ≤ count_from sub 0 (a ++ b).
Proof.
  intros Hsub.
  assert (0 < length sub) as Hpos by (destruct sub; [done | simpl; lia]).
  destruct (count_from_attained sub a Hsub) as (psa & [Hocca Hapa] & <-).
  destruct (count_from_attained sub b Hsub) as (psb & Hpsb & <-).
  assert (non_overlapping sub (a ++ b) ((λ q, q + length a) <$> psb)) as [Hoccb Hapb].
  { apply non_overlapping_undrop; [rewrite length_app; lia|].
    by rewrite drop_app_length. }
  rewrite <- (length_fmap (λ q, q + length a) psb), <- length_app.
  apply count_from_upper; [done|]. split.
  - apply Forall_app. split; [|done].
    eapply Forall_impl; [exact Hocca|]. intros p. apply occurs_at_app_l.
  - apply apart_app; [done..|].
    intros p q Hp Hq. rewrite Forall_forall in Hocca. destruct (Hocca p Hp) as [Hfit _].
    apply list_elem_of_fmap in Hq as (q' & -> & _). lia.
Qed.

(** For a single character, the scan counts the characters equal to it. *)
Lemma count_from_single c (text : list N) :
  count_from [c] 0 text = length (filter (λ x, c = x) text).
Proof.
  induction text as [|x text IH]; [done|].
  cbn [count_from starts_with length filter list_filter]. rewrite andb_true_r.
  change (1 - 1) with 0. rewrite IH.
  case_bool_decide; case_decide; done.
Qed.

End MoreStrCountProperties.

Section MoreCountLetters.
Local Open Scope nat_scope.
Variable lower : pystr → pystr.

(** X15. The count is at most the length of the lowercase text plus
    one, and reaches it exactly when the lowercase search string is
    empty; and the counted occurrences fit in the text side by side:
    the count times the length of the lowercase search string is at
    most the length of the lowercase text. *)
Theorem count_letters_bounds text search :
  count_letters lower text search ≤ length (lower text) + 1 ∧
  (count_letters lower text search = length (lower text) + 1 ↔ lower search = []) ∧
  count_letters lower text search * length (lower search) ≤ length (lower text).
Proof.
  unfold count_letters, str_count.
  destruct (lower search) as [|a sub] eqn:Hsearch.
  - split; [lia|]. split; [split; [done|lia]|]. cbn [length]. lia.
  - pose proof (count_from_width (a :: sub) (lower text) ltac:(done)) as Hwidth.
    simpl in *. split; [nia|]. split; [|lia]. split; [nia|done].
Qed.

(** X16. For a search string whose lowercase form is not empty, the
    count is zero exactly when that form occurs nowhere in the
    lowercase text. *)
Theorem count_letters_zero text search :
  lower search ≠ [] →
  count_letters lower text search = 0 ↔
  ∀ p, ¬ occurs_at (lower search) (lower text) p.
Proof.
  intros Hsearch. unfold count_letters, str_count.
  destruct (lower search) as [|a sub] eqn:Hsub; [done|]. split.
  - intros Hzero p Hocc.
    pose proof (count_from_upper (a :: sub) (lower text) [p] Hsearch) as Hle.
    rewrite Hzero in Hle. simpl in Hle.
    assert (1 ≤ 0) by (apply Hle; split; [by constructor | done]). lia.
  - intros Hnone.
    destruct (count_from_attained (a :: sub) (lower text) Hsearch) as (ps & [Hocc _] & <-).
    destruct ps as [|p ps]; [done|].
    apply Forall_cons in Hocc as [Hp _]. by destruct (Hnone p).
Qed.

(** X17. The use the tool is written for: when the lowercase form of
    the search string is a single character, the count is the number of
    characters of the lowercase text equal to it. *)
Theorem count_letters_single_letter text search c :
  lower search = [c] →
  count_letters lower text search = length (filter (λ x, c = x) (lower text)).
Proof.
  intros Hsearch. unfold count_letters, str_count. rewrite Hsearch.
  apply count_from_single.
Qed.

(** X18. Over a text made of two parts that are lowercased part by
    part, and for a search string whose lowercase form is not empty,
    the count in the whole is at least the sum of the counts in the
    parts (an occurrence may straddle the seam); for a single character
    it is the sum. *)
Theorem count_letters_concat text1 text2 search :
  lower (text1 ++ text2) = lower text1 ++ lower text2 →
  lower search ≠ [] →
  count_letters lower text1 search + count_letters lower text2 search
    ≤ count_letters lower (text1 ++ text2) search ∧
  (∀ c, lower search = [c] →
     count_letters lower (text1 ++ text2) search
     = count_letters lower text1 search + count_letters lower text2 search).
Proof.
  intros Happ Hsearch. split.
  - unfold count_letters, str_count. rewrite Happ.
    destruct (lower search) as [|a sub]; [done|]. by apply count_from_app.
  - intros c Hc. unfold count_letters, str_count. rewrite Hc, Happ.
    rewrite !count_from_single. unfold pystr. by rewrite filter_app, length_app.
Qed.

End MoreCountLetters.

(** X19. On ASCII text the tool does not see the case of letters:
    uppercasing or lowercasing either argument leaves the count as it
    is. *)
Theorem count_letters_ascii_case text search :
  Forall (λ c, (c < 128)%N) text →
  Forall (λ c, (c < 128)%N) search →
  count_letters basic_lower (basic_upper text) search = count_letters basic_lower text search ∧
  count_letters basic_lower text (basic_upper search) = count_letters basic_lower text search ∧
  count_letters basic_lower (basic_lower text) (basic_lower search)
    = count_letters basic_lower text search.
Proof.
  intros Htext Hsearch. unfold count_letters.
  by rewrite !basic_lower_upper, !basic_lower_idempotent.
Qed.

(** X20. The lifespan reads the environment and never writes to it:
    whichever way it ends, the environment of the process is the one it
    started with. *)
Theorem lifespan_keeps_environment mcp l S A rejects close_raises
    (body : AppContext → S → outcome A * S) (p : Process S) :
  mcp ∈ solutions →
  lifespan mcp = Some l →
  environ (l S A rejects close_raises body p).2 = environ p.
Proof.
  intros Hin Hl. rewrite (database_backed_lifespan mcp l Hin Hl).
  unfold app_lifespan, new_driver.
  destruct (rejects _ _) as [e|]; simpl; [done|].
  destruct (body _ (server p)) as [r s']. unfold driver_close. simpl.
  by destruct (close_raises _).
Qed.

(** * The further properties at concrete inputs *)

Lemma returned_page_number_witness :
  ∃ pg,
    (list_movies_by_genre Sample.engine "Action" 2 1 Sample.world).1 = Return pg ∧
    page pg = 2 ∧ page_size_ pg = 2 ∧ page_genre pg = "Action".
Proof.
  eexists. split; [reflexivity|].
  apply (returned_page_number Sample.engine "Action" 2 1 Sample.world). reflexivity.
Defined.

Lemma next_cursor_as_cursor_witness :
  ∃ pg,
    (list_movies_by_genre Sample.engine "Action" 2 0 Sample.world).1 = Return pg ∧
    next_cursor pg = Some 2 ∧
    map q_params (issued (list_movies_by_genre Sample.engine "Action" 2 2 Sample.world).2)
      = [[("genre", PStr "Action"); ("skip", PInt 4); ("limit", PInt 2)]].
Proof.
  eexists. split; [reflexivity|]. split; [reflexivity|].
  destruct (next_cursor_as_cursor Sample.engine "Action" 2 0 Sample.world Sample.world
              _ 2 eq_refl eq_refl) as (_ & Hissued & _).
  rewrite Hissued. reflexivity.
Defined.

Lemma negative_page_size_has_no_next_witness :
  ∃ pg,
    (list_movies_by_genre (MoreSamples.answering [Sample.matrix]) "Action" (-2) 1
       Sample.world).1 = Return pg ∧
    next_cursor pg = None ∧ has_more pg = false.
Proof.
  eexists. split; [reflexivity|].
  apply (negative_page_size_has_no_next (MoreSamples.answering [Sample.matrix])
           "Action" (-2) 1 Sample.world); [lia | reflexivity].
Defined.

Lemma list_movies_by_genre_messages_witness :
  messages (list_movies_by_genre Sample.engine "Action" 2 1 Sample.world).2
  = [(Info, "Fetching Action movies, page 2 (showing 2 per page)...");
     (Info, "Returned 1 movies from page 2");
     (Info, "This is the last page")].
Proof.
  apply (list_movies_by_genre_messages Sample.engine "Action" 2 1 Sample.world
           [Sample.title_row "rating" "Speed"]); [lia | reflexivity].
Defined.

Lemma get_movies_by_genre_found_witness :
  (get_movies_by_genre Sample.engine "Drama" 5 Sample.world).1 = Return [] ∧
  messages (get_movies_by_genre Sample.engine "Drama" 5 Sample.world).2
  = [(Info, "Searching for Drama movies (limit: 5)...");
     (Debug, "Executing Cypher query for genre: Drama");
     (Info, "Found 0 Drama movies");
     (Warning, "No movies found for genre: Drama")].
Proof.
  apply (get_movies_by_genre_found Sample.engine "Drama" 5 Sample.world []). reflexivity.
Defined.

Lemma get_movie_not_found_witness :
  (get_movie Sample.engine "0" Sample.world).1
    = Return "Movie with TMDB ID 0 not found in database" ∧
  messages (get_movie Sample.engine "0" Sample.world).2
    = [(Info, "Fetching movie details for TMDB ID: 0");
       (Warning, "Movie with TMDB ID 0 not found")].
Proof.
  apply (get_movie_not_found Sample.engine "0" Sample.world). reflexivity.
Defined.

Lemma get_movie_unformattable_witness :
  let e := TypeError "sequence item 6: expected str instance, NoneType found" in
  (get_movie (MoreSamples.answering [MoreSamples.no_plot]) "949" Sample.world).1 = Raise e ∧
  messages (get_movie (MoreSamples.answering [MoreSamples.no_plot]) "949" Sample.world).2
    = [(Info, "Fetching movie details for TMDB ID: 949");
       (Error, "Failed to fetch movie: sequence item 6: expected str instance, NoneType found")].
Proof.
  apply (get_movie_unformattable (MoreSamples.answering [MoreSamples.no_plot]) "949"
           Sample.world MoreSamples.no_plot []); reflexivity.
Defined.

Lemma get_movie_found_witness :
  ∃ title,
    (list_to_map Sample.matrix : gmap string value) !! "title" = Some title ∧
    (get_movie Sample.engine "603" Sample.world).1
      = Return (match format_movie (list_to_map Sample.matrix) with
                | Ok text => text
                | _ => ""
                end) ∧
    messages (get_movie Sample.engine "603" Sample.world).2
      = [(Info, "Fetching movie details for TMDB ID: 603");
         (Info, "Successfully fetched details for '" +:+ py_format title +:+ "'")].
Proof.
  apply (get_movie_found Sample.engine "603" Sample.world Sample.matrix []); reflexivity.
Defined.

Lemma format_movie_needs_witness :
  Forall (λ key, is_Some ((list_to_map Sample.matrix : gmap string value) !! key)) movie_keys ∧
  (∃ plot s,
     (list_to_map Sample.matrix : gmap string value) !! "plot" = Some plot ∧
     py_as_str plot = Some s) ∧
  (∃ genres names,
     (list_to_map Sample.matrix : gmap string value) !! "genres" = Some genres ∧
     py_iter genres = Ok names ∧
     Forall (λ v, is_Some (py_as_str v)) names).
Proof.
  eapply (format_movie_needs (list_to_map Sample.matrix)). reflexivity.
Defined.

Lemma no_error_message_on_success_witness :
  ∃ more,
    messages (handle_request Sample.engine (GetMoviesByGenre "Drama" 5) Sample.world).2
      = messages Sample.world ++ more ∧
    Forall (λ message, message.1 ≠ Error) more.
Proof.
  eapply (no_error_message_on_success Sample.engine (GetMoviesByGenre "Drama" 5)
            Sample.world). reflexivity.
Defined.

Lemma lifespan_constructor_failure_witness :
  app_lifespan MoreSamples.rejecting Sample.closes Sample.failing_server Sample.process
  = (Raise MoreSamples.bad_uri, Sample.process).
Proof.
  apply (lifespan_constructor_failure PaginatedTool.mcp (@app_lifespan) nat unit
           MoreSamples.rejecting Sample.closes Sample.failing_server Sample.process
           MoreSamples.bad_uri paginated_tool_is_a_solution eq_refl eq_refl).
Defined.

Lemma lifespan_close_failure_witness :
  ∃ d,
    (app_lifespan Sample.accepts MoreSamples.close_fails MoreSamples.quiet_server
       Sample.process).1 = Raise MoreSamples.broken_pipe ∧
    driver_events (app_lifespan Sample.accepts MoreSamples.close_fails
                     MoreSamples.quiet_server Sample.process).2
      = [Created d; Closed d].
Proof.
  destruct (lifespan_close_failure PaginatedTool.mcp (@app_lifespan) nat unit
              Sample.accepts MoreSamples.close_fails MoreSamples.quiet_server Sample.process
              MoreSamples.broken_pipe paginated_tool_is_a_solution eq_refl eq_refl
              (λ d, eq_refl))
    as (d & Hout & Hevents & _).
  exists d. split; [exact Hout | exact Hevents].
Defined.

Lemma lifespan_keeps_environment_witness :
  environ (app_lifespan Sample.accepts Sample.closes Sample.failing_server Sample.process).2
  = environ Sample.process.
Proof.
  apply (lifespan_keeps_environment PaginatedTool.mcp (@app_lifespan) nat unit
           Sample.accepts Sample.closes Sample.failing_server Sample.process
           paginated_tool_is_a_solution eq_refl).
Defined.

Lemma count_letters_zero_witness :
  count_letters basic_lower (points "Strawberry") (points "Z") = 0%nat ↔
  ∀ p, ¬ occurs_at (basic_lower (points "Z")) (basic_lower (points "Strawberry")) p.
Proof.
  apply (count_letters_zero basic_lower (points "Strawberry") (points "Z")). discriminate.
Defined.

Lemma count_letters_single_letter_witness :
  count_letters basic_lower (points "Strawberry") (points "R")
  = length (filter (λ x, 114%N = x) (basic_lower (points "Strawberry"))).
Proof.
  apply (count_letters_single_letter basic_lower (points "Strawberry") (points "R") 114%N).
  reflexivity.
Defined.

Lemma count_letters_concat_witness :
  (count_letters basic_lower (points "Straw") (points "RR")
   + count_letters basic_lower (points "berry") (points "RR")
   ≤ count_letters basic_lower (points "Straw" ++ points "berry") (points "RR"))%nat.
Proof.
  apply (count_letters_concat basic_lower (points "Straw") (points "berry") (points "RR"));
    [reflexivity | discriminate].
Defined.

Lemma count_letters_ascii_case_witness :
  count_letters basic_lower (basic_upper (points "Strawberry")) (points "r")
  = count_letters basic_lower (points "Strawberry") (points "r").
Proof.
  apply (count_letters_ascii_case (points "Strawberry") (points "r"));
    repeat constructor.
Defined.

Lemma database_named_by_request_witness :
  ∃ call,
    issued (handle_request Sample.engine (GetMoviesByGenre "Action" 2) Sample.world).2
      = issued Sample.world ++ [call] ∧
    q_driver call = driver Sample.context ∧
    q_database call = None.
Proof.
  apply (database_named_by_request Sample.engine (GetMoviesByGenre "Action" 2) Sample.world).
  reflexivity.
Defined.
